(** * A shallow embedding of [blockchain.py]

    The development follows the source class by class: [Output], [Input],
    [Transaction], [HashableMerkleTree], [Block] and [Blockchain].

    - Python integers are [Z]; byte strings are [list byte].
    - A dictionary whose iteration order is never observed is a [gmap];
      the two dictionaries the code iterates over ([block_heights] and
      [cumulative_work]) are association lists in insertion order.
    - Code that may raise lives in the small exception monad [Py].
    - [hashlib.sha256] and [dill.dumps] are parameters of the development.
    - The floating point numbers produced by [getWork] are an abstract
      carrier with the operations the code uses on them; a quotient
      beyond the range of a float, on which Python raises
      [OverflowError], needs a genesis target of more than 256 bits and
      is excluded by that bound where a statement depends on it.
    - Objects are values: a transaction or block is not mutated by its
      creator once it has been handed over, so that the copies the code
      takes ([copy.deepcopy]) and the references it keeps coincide. *)

From Stdlib Require Import ZArith List Lia Bool.
From Stdlib Require Import Strings.Byte Strings.String Strings.Ascii.
From Stdlib Require Import DecimalString QArith Lqa.
From stdpp Require Import gmap list fin_maps fin_sets.
From Equations Require Import Equations.
From Equations.Prop Require Import Logic.

Set Warnings "-register-all".
Local Open Scope Z_scope.

(** ** Python values, exceptions and truthiness *)

Inductive exn : Set :=
| TypeError
| OverflowError
| KeyError
| IndexError
| ZeroDivisionError
| StopIteration.

(** A computation either returns or raises an exception (all the
    exceptions above derive from Python's [Exception]). *)
Inductive Py (A : Type) : Type :=
| Ret (a : A)
| Raise (e : exn).
Arguments Ret {A} a.
Arguments Raise {A} e.

#[global] Instance Py_ret : MRet Py := @Ret.

#[global] Instance Py_bind : MBind Py := fun A B k c =>
  match c with
  | Ret a => k a
  | Raise e => Raise e
  end.

(** The values a constraint script can receive and return. *)
Inductive PyVal : Type :=
| PyNone
| PyBool (b : bool)
| PyInt (z : Z)
| PyStr (s : string)
| PyList (l : list PyVal).

(** Python's truth value testing, as used by [if not x]. *)
Definition truthy (v : PyVal) : bool :=
  match v with
  | PyNone => false
  | PyBool b => b
  | PyInt z => negb (z =? 0)
  | PyStr s => negb (String.eqb s EmptyString)
  | PyList l => match l with [] => false | _ :: _ => true end
  end.

Definition is_bool (v : PyVal) : bool :=
  match v with PyBool _ => true | _ => false end.

(** [if xs] on an attribute that is either [None] or a list. *)
Definition truthy_list {A} (xs : option (list A)) : bool :=
  match xs with
  | None => false
  | Some [] => false
  | Some (_ :: _) => true
  end.

(** ** Output *)

Record Output : Type := mkOutput {
  constraint : option (list PyVal -> Py PyVal);
  amount : Z
}.

(** [Output.can_be_spent]: the value of the constraint script is handed
    back as it is; only a raised exception is turned into [False]. *)
Definition can_be_spent (o : Output) (satisfier : list PyVal) : PyVal :=
  match constraint o with
  | None => PyBool true
  | Some f =>
      match f satisfier with
      | Ret v => v
      | Raise _ => PyBool false
      end
  end.

(** ** Input *)

Record Input : Type := mkInput {
  txHash : Z;
  txIdx : Z;
  satisfier : list PyVal
}.

(** ** Transaction *)

Record Transaction : Type := mkTransaction {
  inputs : option (list Input);
  outputs : option (list Output);
  data : option (list byte)
}.

(** The unspent outputs dictionary, keyed by [(txHash, txIdx)]. *)
Abbreviation UTXO := (gmap (Z * Z) Output).

Definition utxo_key (inp : Input) : Z * Z := (txHash inp, txIdx inp).

(** [sum(output.amount for output in outs)] *)
Definition sum_amounts (outs : list Output) : Z :=
  fold_left (fun acc out => acc + amount out) outs 0.

(** [Transaction.getInputs] *)
Definition getInputs (tx : Transaction) : list Input :=
  if truthy_list (inputs tx) then default [] (inputs tx) else [].

(** [Transaction.getOutput] *)
Definition getOutput (tx : Transaction) (n : Z) : option Output :=
  match outputs tx with
  | Some (o :: os) =>
      if (0 <=? n) && (n <? Z.of_nat (length (o :: os)))
      then nth_error (o :: os) (Z.to_nat n)
      else None
  | _ => None
  end.

(** [Transaction.validateMint] *)
Definition validateMint (tx : Transaction) (maxCoinsToCreate : Z) : bool :=
  match inputs tx with
  | Some _ => false
  | None =>
      match outputs tx with
      | Some (o :: os) => sum_amounts (o :: os) <=? maxCoinsToCreate
      | _ => false
      end
  end.

(** The [for inp in self.inputs] loop of [Transaction.validate]; [None]
    stands for the early [return False], otherwise the accumulated
    [input_sum]. *)
Fixpoint validate_inputs (unspentOutputDict : UTXO) (ins : list Input)
    (input_sum : Z) : option Z :=
  match ins with
  | [] => Some input_sum
  | inp :: rest =>
      match unspentOutputDict !! utxo_key inp with
      | None => None
      | Some utxo =>
          if negb (truthy (can_be_spent utxo (satisfier inp))) then None
          else validate_inputs unspentOutputDict rest (input_sum + amount utxo)
      end
  end.

(** [Transaction.validate] *)
Definition Transaction_validate (tx : Transaction) (unspentOutputDict : UTXO) : bool :=
  if negb (truthy_list (inputs tx)) then true
  else if negb (truthy_list (outputs tx)) then false
  else
    match validate_inputs unspentOutputDict (default [] (inputs tx)) 0 with
    | None => false
    | Some input_sum => input_sum >=? sum_amounts (default [] (outputs tx))
    end.

(** ** Hashing and byte strings *)

(** The two library functions the code relies on:
    [hashlib.sha256(x).digest()] and [dill.dumps] applied to the triple
    [(inputs, outputs, data)] of a transaction. *)
Class Hashing : Type := {
  sha256 : list byte -> list byte;
  dumps : Transaction -> list byte
}.

(** [int.from_bytes(bs, 'big')] *)
Definition int_from_bytes (bs : list byte) : Z :=
  fold_left (fun acc b => acc * 256 + Z.of_N (Byte.to_N b)) bs 0.

Definition byte_of_Z (z : Z) : byte :=
  default x00 (Byte.of_N (Z.to_N (z mod 256))).

Fixpoint be_bytes (len : nat) (n : Z) : list byte :=
  match len with
  | O => []
  | S k => byte_of_Z (Z.shiftr n (8 * Z.of_nat k)) :: be_bytes k n
  end.

(** [n.to_bytes(len, 'big')]: raises [OverflowError] on a negative
    integer or one that does not fit. *)
Definition to_bytes (n : Z) (len : nat) : Py (list byte) :=
  if (0 <=? n) && (n <? 2 ^ (8 * Z.of_nat len)) then Ret (be_bytes len n)
  else Raise OverflowError.

(** [str(n)] for an integer and for an attribute that may be [None]. *)
Definition str_int (n : Z) : string := NilZero.string_of_int (Z.to_int n).

Definition str_opt (n : option Z) : string :=
  match n with
  | None => "None"%string
  | Some z => str_int z
  end.

(** [s.encode()] on a string of ASCII characters. *)
Definition encode (s : string) : list byte := list_byte_of_string s.

(** Objects with a [getHash()] method. *)
Class Hashable (A : Type) : Type := getHash : A -> Z.

(** A list index [l[i]], raising [IndexError] out of range. *)
Definition py_index {A} (l : list A) (i : nat) : Py A :=
  match l !! i with
  | Some x => Ret x
  | None => Raise IndexError
  end.

(** [range(0, n, 2)] *)
Definition range_step2 (n : nat) : list nat :=
  map (fun k => 2 * k)%nat (seq 0 (Nat.div2 (S n))).

(** ** Data of the Merkle tree and of blocks *)

Record HashableMerkleTree (A : Type) : Type := mkHashableMerkleTree {
  objects : list A;
  hashableList : list Z
}.
Arguments mkHashableMerkleTree {A} _ _.
Arguments objects {A} _.
Arguments hashableList {A} _.

Record BlockContents : Type := mkBlockContents {
  bc_data : HashableMerkleTree Transaction
}.

Record Block : Type := mkBlock {
  prior_block_hash : option Z;
  version : option Z;
  merkle_tree : option (HashableMerkleTree Transaction);
  target : option Z;
  nonce : Z;
  block_contents : BlockContents;
  timestamp : option Z
}.

Section WithHashing.
Context `{Hashing}.

(** [Transaction.getHash] *)
#[global] Instance Transaction_getHash : Hashable Transaction :=
  fun tx => int_from_bytes (sha256 (dumps tx)).

(** ** HashableMerkleTree *)

(** [HashableMerkleTree.__init__] *)
Definition HashableMerkleTree_init {A} `{Hashable A}
    (hashableList : option (list A)) : HashableMerkleTree A :=
  if truthy_list hashableList then
    let objs := default [] hashableList in
    mkHashableMerkleTree objs (map getHash objs)
  else mkHashableMerkleTree [] [].

(** One iteration of the [for i in range(0, len(current_level), 2)] loop
    of [calcMerkleRoot]: the value appended to [next_level]. *)
Definition merkle_combine (current_level : list Z) (i : nat) : Py Z :=
  left ← py_index current_level i;
  right ← (if (i + 1 <? length current_level)%nat
           then py_index current_level (i + 1) else Ret 0);
  lb ← to_bytes left 32;
  rb ← to_bytes right 32;
  Ret (int_from_bytes (sha256 (lb ++ rb))).

(** The whole [for] loop: the next level. *)
Definition merkle_next_level (current_level : list Z) : Py (list Z) :=
  mapM (merkle_combine current_level) (range_step2 (length current_level)).

(** The [while len(current_level) > 1] loop followed by
    [return current_level[0]]. *)
Equations? merkle_loop (current_level : list Z) : Py Z
    by wf (length current_level) lt :=
  merkle_loop [] := Raise IndexError;
  merkle_loop [h] := Ret h;
  merkle_loop (a :: b :: rest) with inspect (merkle_next_level (a :: b :: rest)) := {
    | exist _ (Ret next_level) Hnext := merkle_loop next_level;
    | exist _ (Raise e) _ := Raise e }.
Proof.
  assert (Hlen : forall (f : nat -> Py Z) l r,
             mapM f l = Ret r -> length r = length l).
  { intros f l. induction l as [|i l IH]; intros r; simpl.
    - intros [= <-]. reflexivity.
    - destruct (f i); simpl; [|discriminate].
      destruct (mapM f l); simpl; [|discriminate].
      intros [= <-]. simpl. f_equal. apply IH. reflexivity. }
  apply Hlen in Hnext. rewrite Hnext.
  unfold range_step2. rewrite length_map, length_seq.
  change (Nat.div2 (S (length (a :: b :: rest))))
    with (S (Nat.div2 (S (length rest)))).
  pose proof (Nat.lt_div2 (S (length rest))). simpl length. lia.
Qed.

(** [HashableMerkleTree.calcMerkleRoot] *)
Definition calcMerkleRoot {A} (t : HashableMerkleTree A) : Py Z :=
  match hashableList t with
  | [] => Ret 0
  | _ :: _ => merkle_loop (hashableList t)
  end.


(** ** Block *)

(** [Block.__init__] *)
Definition Block_init : Block :=
  {| prior_block_hash := None; version := None; merkle_tree := None;
     target := None; nonce := 0;
     block_contents := mkBlockContents (HashableMerkleTree_init None);
     timestamp := None |}.

(** [Block.setContents] *)
Definition setContents (b : Block) (data : option (list Transaction)) : Block :=
  let t := HashableMerkleTree_init data in
  {| prior_block_hash := prior_block_hash b; version := version b;
     merkle_tree := Some t; target := target b; nonce := nonce b;
     block_contents := mkBlockContents t; timestamp := timestamp b |}.

(** [Block.setTarget] *)
Definition setTarget (b : Block) (tgt : Z) : Block :=
  {| prior_block_hash := prior_block_hash b; version := version b;
     merkle_tree := merkle_tree b; target := Some tgt; nonce := nonce b;
     block_contents := block_contents b; timestamp := timestamp b |}.

(** [Block.setPriorBlockHash] *)
Definition setPriorBlockHash (b : Block) (priorHash : Z) : Block :=
  {| prior_block_hash := Some priorHash; version := version b;
     merkle_tree := merkle_tree b; target := target b; nonce := nonce b;
     block_contents := block_contents b; timestamp := timestamp b |}.

Definition set_nonce (b : Block) (n : Z) : Block :=
  {| prior_block_hash := prior_block_hash b; version := version b;
     merkle_tree := merkle_tree b; target := target b; nonce := n;
     block_contents := block_contents b; timestamp := timestamp b |}.

(** [Block.getHash] *)
Definition Block_getHash (b : Block) : Py Z :=
  root ← calcMerkleRoot (bc_data (block_contents b));
  let header_data :=
    encode (String.append (str_opt (prior_block_hash b))
           (String.append (str_int root)
           (String.append (str_opt (timestamp b))
           (String.append (str_int (nonce b))
                          (str_opt (target b)))))) in
  Ret (int_from_bytes (sha256 header_data)).

(** The [while self.getHash() >= tgt] loop of [Block.mine], cut off after
    [fuel] tests; [None] means that no nonce was found within them. *)
Fixpoint mine_loop (fuel : nat) (tgt : Z) (b : Block) : option (Py Block) :=
  match fuel with
  | O => None
  | S fuel' =>
      match Block_getHash b with
      | Raise e => Some (Raise e)
      | Ret h =>
          if h >=? tgt then mine_loop fuel' tgt (set_nonce b (nonce b + 1))
          else Some (Ret b)
      end
  end.

(** [Block.mine] *)
Definition mine (fuel : nat) (b : Block) (tgt : Z) : option (Py Block) :=
  mine_loop fuel tgt (set_nonce (setTarget b tgt) 0).

(** The [for inp in tx.inputs] loop of [Block.validate]; [None] is the
    early [return None], otherwise the grown [spent] set. *)
Fixpoint spend_inputs (current_utxos : UTXO) (ins : list Input)
    (spent : gset (Z * Z)) : option (gset (Z * Z)) :=
  match ins with
  | [] => Some spent
  | inp :: rest =>
      if bool_decide (utxo_key inp ∈ spent) then None
      else
        match current_utxos !! utxo_key inp with
        | None => None
        | Some utxo =>
            if negb (truthy (can_be_spent utxo (satisfier inp))) then None
            else spend_inputs current_utxos rest ({[utxo_key inp]} ∪ spent)
        end
  end.

(** [for idx, out in enumerate(outs): current_utxos[(tx_hash, idx)] = out] *)
Fixpoint insert_outputs (tx_hash : Z) (idx : nat) (outs : list Output)
    (current_utxos : UTXO) : UTXO :=
  match outs with
  | [] => current_utxos
  | out :: rest =>
      insert_outputs tx_hash (S idx) rest
        (<[(tx_hash, Z.of_nat idx) := out]> current_utxos)
  end.

(** The [if tx.outputs:] statement closing the body of the main loop. *)
Definition add_outputs (tx : Transaction) (current_utxos : UTXO) : UTXO :=
  if truthy_list (outputs tx)
  then insert_outputs (getHash tx) 0 (default [] (outputs tx)) current_utxos
  else current_utxos.

(** The body of [for idx, tx in enumerate(transactions)]. *)
Definition validate_tx (maxMint : Z) (idx : nat) (tx : Transaction)
    (st : UTXO * gset (Z * Z)) : option (UTXO * gset (Z * Z)) :=
  let '(current_utxos, spent) := st in
  if (idx =? 0)%nat then
    if bool_decide (is_Some (inputs tx))
       || (truthy_list (outputs tx) && negb (validateMint tx maxMint))
    then None
    else Some (add_outputs tx current_utxos, spent)
  else
    match inputs tx with
    | None => None
    | Some ins =>
        match spend_inputs current_utxos ins spent with
        | None => None
        | Some spent' => Some (add_outputs tx current_utxos, spent')
        end
    end.

Fixpoint validate_loop (maxMint : Z) (idx : nat) (txs : list Transaction)
    (st : UTXO * gset (Z * Z)) : option (UTXO * gset (Z * Z)) :=
  match txs with
  | [] => Some st
  | tx :: rest =>
      match validate_tx maxMint idx tx st with
      | None => None
      | Some st' => validate_loop maxMint (S idx) rest st'
      end
  end.

(** [for utxo_key in spent: del current_utxos[utxo_key]].  Every key of
    [spent] was found in [current_utxos] before it was added and entries
    are never removed before this loop, so [del] does not raise. *)
Definition delete_spent (current_utxos : UTXO) (spent : gset (Z * Z)) : UTXO :=
  set_fold (fun k m => delete k m) current_utxos spent.

(** How [Block.validate] ends once the main loop is over: the invalid
    marker if the loop returned early, otherwise the running view without
    the spent entries. *)
Definition finish_validate (st : option (UTXO * gset (Z * Z))) : option UTXO :=
  match st with
  | None => None
  | Some (current_utxos, spent) => Some (delete_spent current_utxos spent)
  end.

(** [Block.validate]; the result [None] is the invalid marker. *)
Definition Block_validate (b : Block) (unspentOutputs : UTXO) (maxMint : Z)
  : Py (option UTXO) :=
  h ← Block_getHash b;
  match target b with
  | None => Raise TypeError
  | Some tgt =>
      if h >=? tgt then Ret None
      else
        let current_utxos := unspentOutputs in
        let transactions := objects (bc_data (block_contents b)) in
        match transactions with
        | [] => Ret (Some current_utxos)
        | _ :: _ =>
            Ret (finish_validate
                   (validate_loop maxMint 0 transactions (current_utxos, ∅)))
        end
  end.

End WithHashing.

(** ** Blockchain *)

(** The numbers [getWork] produces and [getTip] compares: Python floats
    (and the integer [-1] that [getTip] starts from).  [num_div] is the
    true division of two integers where its result is a float, that is,
    where the quotient is in the range of a float; beyond that range
    Python raises [OverflowError] instead.  A quotient
    [genesisTarget / target] by a positive target is in that range as
    soon as the genesis target is a 256-bit value; the statements on what
    a call of [extend] can raise, and on what it leaves behind, carry
    that bound. *)
Class WorkNum : Type := {
  number : Type;
  num_of_Z : Z -> number;
  num_inf : number;
  num_div : Z -> Z -> number;
  num_add : number -> number -> number;
  num_gt : number -> number -> bool
}.

(** Dictionaries that the code iterates over keep their insertion order. *)
Fixpoint dict_get {V} (d : list (Z * V)) (k : Z) : option V :=
  match d with
  | [] => None
  | (k', v) :: rest => if k' =? k then Some v else dict_get rest k
  end.

(** [d[k] = v]: an existing key keeps its position, a new key goes last. *)
Fixpoint dict_set {V} (d : list (Z * V)) (k : Z) (v : V) : list (Z * V) :=
  match d with
  | [] => [(k, v)]
  | (k', v') :: rest =>
      if k' =? k then (k', v) :: rest else (k', v') :: dict_set rest k v
  end.

(** [next(h for h, blocks in block_heights.items() if prior_hash in blocks)];
    [None] stands for [StopIteration]. *)
Fixpoint find_height (block_heights : list (Z * list Z)) (prior_hash : Z)
  : option Z :=
  match block_heights with
  | [] => None
  | (h, hashes) :: rest =>
      if bool_decide (prior_hash ∈ hashes) then Some h
      else find_height rest prior_hash
  end.

Section WithWork.
Context `{Hashing} `{WorkNum}.

Record Blockchain : Type := mkBlockchain {
  maxMintCoinsPerTx : Z;
  blocks : gmap Z Block;
  block_heights : list (Z * list Z);
  cumulative_work : list (Z * number);
  utxo_sets : gmap Z (option UTXO);
  genesisTarget : Z
}.

(** [Blockchain.getWork], for quotients in the range of a float. *)
Definition getWork (genesisTarget target : Z) : number :=
  if target =? 0 then num_inf else num_div genesisTarget target.

(** [Blockchain.__init__]; mining the genesis block is cut off after
    [fuel] nonces ([None] when none of them solves the block). *)
Definition Blockchain_init (fuel : nat) (genesisTarget maxMintCoinsPerTx : Z)
  : option (Py Blockchain) :=
  let genesis := setPriorBlockHash (setTarget Block_init genesisTarget) 0 in
  match mine fuel genesis genesisTarget with
  | None => None
  | Some (Raise e) => Some (Raise e)
  | Some (Ret genesis) =>
      Some (genesis_hash ← Block_getHash genesis;
            utxos ← Block_validate genesis ∅ maxMintCoinsPerTx;
            Ret {| maxMintCoinsPerTx := maxMintCoinsPerTx;
                   blocks := {[genesis_hash := genesis]};
                   block_heights := [(0, [genesis_hash])];
                   cumulative_work :=
                     [(genesis_hash, getWork genesisTarget genesisTarget)];
                   utxo_sets := {[genesis_hash := utxos]};
                   genesisTarget := genesisTarget |})
  end.

(** The [for block_hash, work in self.cumulative_work.items()] loop of
    [getTip]; [blocks[block_hash]] raises [KeyError] on a missing key. *)
Fixpoint getTip_loop (blocks : gmap Z Block) (items : list (Z * number))
    (max_work : number) (tip : option Block) : Py (option Block) :=
  match items with
  | [] => Ret tip
  | (block_hash, work) :: rest =>
      if num_gt work max_work then
        match blocks !! block_hash with
        | None => Raise KeyError
        | Some b => getTip_loop blocks rest work (Some b)
        end
      else getTip_loop blocks rest max_work tip
  end.

(** [Blockchain.getTip] *)
Definition getTip (s : Blockchain) : Py (option Block) :=
  getTip_loop (blocks s) (cumulative_work s) (num_of_Z (-1)) None.

Definition set_blocks_utxos (s : Blockchain) (block_hash : Z) (b : Block)
    (new_utxos : UTXO) : Blockchain :=
  {| maxMintCoinsPerTx := maxMintCoinsPerTx s;
     blocks := <[block_hash := b]> (blocks s);
     block_heights := block_heights s;
     cumulative_work := cumulative_work s;
     utxo_sets := <[block_hash := Some new_utxos]> (utxo_sets s);
     genesisTarget := genesisTarget s |}.

Definition set_block_heights (s : Blockchain) (bh : list (Z * list Z))
  : Blockchain :=
  {| maxMintCoinsPerTx := maxMintCoinsPerTx s;
     blocks := blocks s;
     block_heights := bh;
     cumulative_work := cumulative_work s;
     utxo_sets := utxo_sets s;
     genesisTarget := genesisTarget s |}.

Definition set_cumulative_work (s : Blockchain) (cw : list (Z * number))
  : Blockchain :=
  {| maxMintCoinsPerTx := maxMintCoinsPerTx s;
     blocks := blocks s;
     block_heights := block_heights s;
     cumulative_work := cw;
     utxo_sets := utxo_sets s;
     genesisTarget := genesisTarget s |}.

(** [if height not in d: d[height] = []] then
    [d[height].append(block_hash)] *)
Definition heights_append (block_heights : list (Z * list Z))
    (height block_hash : Z) : list (Z * list Z) :=
  let d := match dict_get block_heights height with
           | None => dict_set block_heights height []
           | Some _ => block_heights
           end in
  dict_set d height (default [] (dict_get d height) ++ [block_hash]).

(** [Blockchain.extend]: the state after the call and its outcome.  The
    argument is [None] for a call on Python's [None]. *)
Definition Blockchain_extend (s : Blockchain) (block : option Block)
  : Blockchain * Py bool :=
  match block with
  | None => (s, Ret false)
  | Some b =>
  match prior_block_hash b with
  | None => (s, Ret false)
  | Some prior_hash =>
  match blocks s !! prior_hash with
  | None => (s, Ret false)
  | Some _ =>
  match mjoin (utxo_sets s !! prior_hash) with
  | None => (s, Ret false)
  | Some parent_utxos =>
  match Block_validate b parent_utxos (maxMintCoinsPerTx s) with
  | Raise e => (s, Raise e)
  | Ret None => (s, Ret false)
  | Ret (Some new_utxos) =>
  match Block_getHash b with
  | Raise e => (s, Raise e)
  | Ret block_hash =>
  let s1 := set_blocks_utxos s block_hash b new_utxos in
  match find_height (block_heights s1) prior_hash with
  | None => (s1, Raise StopIteration)
  | Some parent_height =>
  let height := parent_height + 1 in
  let s2 := set_block_heights s1
              (heights_append (block_heights s1) height block_hash) in
  match dict_get (cumulative_work s2) prior_hash with
  | None => (s2, Raise KeyError)
  | Some parent_work =>
  match target b with
  | None => (s2, Raise TypeError)
  | Some tgt =>
    (set_cumulative_work s2
       (dict_set (cumulative_work s2) block_hash
          (num_add parent_work (getWork (genesisTarget s2) tgt))),
     Ret true)
  end end end end end end end end end.

(** [Blockchain.getCumulativeWork] *)
Definition getCumulativeWork (s : Blockchain) (blkHash : Z) : option number :=
  dict_get (cumulative_work s) blkHash.

(** [Blockchain.getBlocksAtHeight] *)
Definition getBlocksAtHeight (s : Blockchain) (height : Z) : Py (list Block) :=
  mapM (fun h => match blocks s !! h with
                 | Some b => Ret b
                 | None => Raise KeyError
                 end)
       (default [] (dict_get (block_heights s) height)).

End WithWork.

(** ** The Merkle root as the specification words it *)

Section MerkleSpec.
Context `{Hashing}.

(** [sha256(left_32_bytes ‖ right_32_bytes)] read as a big-endian integer. *)
Definition spec_pair_hash (left right : Z) : Z :=
  int_from_bytes (sha256 (be_bytes 32 left ++ be_bytes 32 right)).

(** Adjacent hashes are paired from the left; the last hash of a level of
    odd length is paired with the literal zero. *)
Fixpoint spec_pair_level (level : list Z) : list Z :=
  match level with
  | [] => []
  | [last] => [spec_pair_hash last 0]
  | l :: r :: rest => spec_pair_hash l r :: spec_pair_level rest
  end.

(** Empty input gives 0, a single hash is the root, otherwise the levels
    are paired until one value remains. *)
Inductive spec_merkle_root : list Z -> Z -> Prop :=
| spec_root_empty : spec_merkle_root [] 0
| spec_root_single h : spec_merkle_root [h] h
| spec_root_level a b rest r :
    spec_merkle_root (spec_pair_level (a :: b :: rest)) r ->
    spec_merkle_root (a :: b :: rest) r.

(** A digest of SHA-256 has 32 bytes. *)
Class Sha256Digest : Prop :=
  sha256_length : forall bs, length (sha256 bs) = 32%nat.

(** A 256-bit value. *)
Definition is_uint256 (h : Z) : Prop := 0 <= h < 2 ^ 256.

End MerkleSpec.

(** ** Bookkeeping of the chain *)

Section ChainSpec.
Context `{Hashing} `{WorkNum}.

(** The block stored under hash [h] is linked to its parent: its height
    is one more than the parent's, its cumulative work is the parent's
    plus its own, and its snapshot is the result of validating it on the
    parent's snapshot. *)
Definition linked (s : Blockchain) (h : Z) (b : Block) : Prop :=
  exists p kp wp tgt pu nu,
    prior_block_hash b = Some p /\
    is_Some (blocks s !! p) /\
    find_height (block_heights s) p = Some kp /\
    find_height (block_heights s) h = Some (kp + 1) /\
    getCumulativeWork s p = Some wp /\
    target b = Some tgt /\
    getCumulativeWork s h
      = Some (num_add wp (getWork (genesisTarget s) tgt)) /\
    utxo_sets s !! p = Some (Some pu) /\
    Block_validate b pu (maxMintCoinsPerTx s) = Ret (Some nu) /\
    utxo_sets s !! h = Some (Some nu).

(** Two blocks with the same parent, target and contents. *)
Definition same_commitment (b b' : Block) : Prop :=
  prior_block_hash b' = prior_block_hash b /\
  target b' = target b /\
  block_contents b' = block_contents b.

(** Hashes identify what a block commits to: a submitted block does not
    hash to the sentinel 0 that stands for "no parent", and a block that
    is already stored under its hash has the same parent, target and
    contents. *)
Definition admissible (s : Blockchain) (b : Block) : Prop :=
  forall h, Block_getHash b = Ret h ->
    h <> 0 /\ forall b', blocks s !! h = Some b' -> same_commitment b b'.

(** The states of a chain: the one built by [__init__], and those that
    calls of [extend] lead to, whatever their outcome. *)
Inductive chain_state : Blockchain -> Prop :=
| chain_state_init fuel gt mm s :
    Blockchain_init fuel gt mm = Some (Ret s) ->
    chain_state s
| chain_state_extend s block s' r :
    chain_state s ->
    Blockchain_extend s block = (s', r) ->
    chain_state s'.

(** The states of a chain with genesis block [g] in which hashes have
    identified what blocks commit to. *)
Inductive reachable (g : Block) : Blockchain -> Prop :=
| reachable_init fuel gt mm s hg :
    Blockchain_init fuel gt mm = Some (Ret s) ->
    blocks s !! hg = Some g ->
    hg <> 0 ->
    reachable g s
| reachable_extend s block s' r :
    reachable g s ->
    (forall b, block = Some b -> admissible s b) ->
    Blockchain_extend s block = (s', r) ->
    reachable g s'.

(** What every reachable state satisfies. *)
Record chain_inv (g : Block) (s : Blockchain) : Prop := {
  inv_genesis_prior : prior_block_hash g = Some 0;
  inv_no_zero : blocks s !! 0 = None;
  inv_hash : forall h b, blocks s !! h = Some b -> Block_getHash b = Ret h;
  inv_work_dom : forall h,
    is_Some (blocks s !! h) <-> is_Some (getCumulativeWork s h);
  inv_height_dom : forall h,
    is_Some (blocks s !! h) <-> is_Some (find_height (block_heights s) h);
  inv_height_unique : forall h k l,
    (k, l) ∈ block_heights s -> h ∈ l ->
    find_height (block_heights s) h = Some k;
  inv_linked : forall h b, blocks s !! h = Some b -> b = g \/ linked s h b
}.

(** Values that are neither negative nor NaN. *)
Definition nonneg (x : number) : Prop :=
  num_gt x (num_of_Z (-1)) = true /\ num_gt (num_of_Z 0) x = false.

(** What the comparison and the arithmetic of floats guarantee on such
    values. *)
Class WorkNumLaws : Prop := {
  num_div_nonneg : forall g t, 0 < g -> 0 < t -> nonneg (num_div g t);
  num_add_nonneg : forall a b, nonneg a -> nonneg b -> nonneg (num_add a b);
  num_gt_irrefl : forall a, num_gt a a = false;
  num_gt_trans : forall a b c,
    num_gt a b = true -> num_gt b c = true -> num_gt a c = true;
  num_gt_le_trans : forall a b c,
    nonneg c -> num_gt a b = true -> num_gt c b = false -> num_gt a c = true
}.


(** The entry [getTip] selects: no entry inserted before it has as much
    work, and no entry inserted after it has more. *)
Definition first_maximum (items : list (Z * number)) (h : Z) : Prop :=
  exists before w after,
    items = before ++ (h, w) :: after /\
    (forall e, e ∈ before -> num_gt w e.2 = true) /\
    (forall e, e ∈ after -> num_gt e.2 w = false).

End ChainSpec.

(** ** Vocabulary of the statements about transactions *)

(** The input references an existing entry whose script accepts its
    satisfier. *)
Definition spendable (U : UTXO) (inp : Input) : Prop :=
  exists utxo, U !! utxo_key inp = Some utxo /\
               truthy (can_be_spent utxo (satisfier inp)) = true.

Definition referenced_amount (U : UTXO) (inp : Input) : Z :=
  from_option amount 0 (U !! utxo_key inp).

(** The sum of the amounts the inputs reference. *)
Definition input_total (U : UTXO) (ins : list Input) : Z :=
  fold_left (fun acc inp => acc + referenced_amount U inp) ins 0.

(** ** Sample data *)

(** An output guarded by [lambda x: 1]. *)
Definition out_script_one : Output :=
  mkOutput (Some (fun _ => Ret (PyInt 1))) 5.

(** A transaction spending entry [(7, 0)] into one output of amount 5. *)
Definition tx_spend_7 : Transaction :=
  mkTransaction (Some [mkInput 7 0 []]) (Some [mkOutput None 5]) None.

(** The same input, but no outputs. *)
Definition tx_spend_7_no_outputs : Transaction :=
  mkTransaction (Some [mkInput 7 0 []]) (Some []) None.

(** A transaction referencing entry [(7, 0)] twice to pay out 10. *)
Definition tx_spend_7_twice : Transaction :=
  mkTransaction (Some [mkInput 7 0 []; mkInput 7 0 []])
                (Some [mkOutput None 10]) None.

(** An empty list of inputs, paying out 5. *)
Definition tx_no_inputs_pay_5 : Transaction :=
  mkTransaction (Some []) (Some [mkOutput None 5]) None.

(** A mint without outputs. *)
Definition tx_mint_nothing : Transaction := mkTransaction None (Some []) None.

(** A mint of 100 coins. *)
Definition tx_mint_100 : Transaction :=
  mkTransaction None (Some [mkOutput None 100]) None.

(** A stand-in for SHA-256 that can be evaluated: 31 zero bytes followed
    by the sum of the input bytes modulo 256. *)
Definition toy_sha256 (bs : list byte) : list byte :=
  repeat x00 31
  ++ [byte_of_Z (fold_left (fun acc b => acc + Z.of_N (Byte.to_N b)) bs 0)].

(** A stand-in for the serializer: the number of inputs and the total of
    the outputs. *)
Definition toy_dumps (tx : Transaction) : list byte :=
  [byte_of_Z (Z.of_nat (length (default [] (inputs tx))));
   byte_of_Z (sum_amounts (default [] (outputs tx)))].

Definition toy_hashing : Hashing :=
  {| sha256 := toy_sha256; dumps := toy_dumps |}.

(** Exact rationals with an infinity, an idealisation of floats. *)
Definition exact_work : WorkNum :=
  {| number := option Q;
     num_of_Z z := Some (inject_Z z);
     num_inf := None;
     num_div g t := Some (Qdiv (inject_Z g) (inject_Z t));
     num_add a b :=
       match a, b with
       | Some x, Some y => Some (Qplus x y)
       | _, _ => None
       end;
     num_gt a b :=
       match a, b with
       | None, Some _ => true
       | Some x, Some y => negb (Qle_bool x y)
       | _, None => false
       end |}.

(** The helper class of the source's own test: an object whose hash is
    the integer it was built from. *)
Definition GivesHash : Hashable Z := fun h => h.

Section Samples.
#[local] Existing Instance toy_hashing.
#[local] Existing Instance exact_work.

Definition max_target : Z := 2 ^ 256 - 1.

(** A block on parent [prior] with the given transactions, target
    [max_target] and nonce 0. *)
Definition sample_block (prior : Z) (txs : list Transaction) : Block :=
  set_nonce
    (setPriorBlockHash
       (setTarget (setContents Block_init (Some txs)) max_target) prior) 0.

(** The chain right after [Blockchain(max_target, 100)]; its genesis
    block hashes to 55 under [toy_hashing]. *)
Definition chain0 : Blockchain :=
  match Blockchain_init 1 max_target 100 with
  | Some (Ret s) => s
  | _ => mkBlockchain 0 ∅ [] [] ∅ 0
  end.

Definition genesis0 : Block :=
  set_nonce (setPriorBlockHash (setTarget Block_init max_target) 0) 0.

(** A mint of 101 coins. *)
Definition tx_mint_101 : Transaction :=
  mkTransaction None (Some [mkOutput None 101]) None.

(** Children of the genesis block. *)
Definition block_mint_100 : Block := sample_block 55 [tx_mint_100].
Definition block_mint_101 : Block := sample_block 55 [tx_mint_101].
Definition block_mint_nothing : Block := sample_block 55 [tx_mint_nothing].

(** A transaction spending the 100 coins of [tx_mint_100] into 1000. *)
Definition tx_overspend : Transaction :=
  mkTransaction (Some [mkInput (getHash tx_mint_100) 0 []])
                (Some [mkOutput None 1000]) None.

Definition block_overspend : Block :=
  sample_block 55 [tx_mint_100; tx_overspend].

(** The chain after [extend(block_mint_100)]. *)
Definition chain1 : Blockchain :=
  (Blockchain_extend chain0 (Some block_mint_100)).1.

(** Two children of the genesis block, submitted in either order. *)
Definition chain_fork : Blockchain :=
  (Blockchain_extend chain1 (Some block_mint_nothing)).1.

Definition chain_fork_swapped : Blockchain :=
  (Blockchain_extend
     (Blockchain_extend chain0 (Some block_mint_nothing)).1
     (Some block_mint_100)).1.

End Samples.

(** ** Vocabulary of the further statements *)

(** The keys that the inputs of the given transactions reference, in the
    order in which [Block.validate] meets them. *)
Definition spent_keys (txs : list Transaction) : list (Z * Z) :=
  flat_map (fun tx => utxo_key <$> default [] (inputs tx)) txs.

Section ChainVocabulary.
Context `{Hashing} `{WorkNum}.

(** The indexes of a chain cover the same blocks: every stored block has
    a height and a cumulative work, every recorded hash belongs to a
    stored block, heights start at 0 with a single hash, and no hash has
    two cumulative works. *)
Record index_inv (s : Blockchain) : Prop := {
  index_height : forall h,
    is_Some (blocks s !! h) -> is_Some (find_height (block_heights s) h);
  index_work : forall h,
    is_Some (blocks s !! h) <-> is_Some (getCumulativeWork s h);
  index_listed : forall k l h,
    (k, l) ∈ block_heights s -> h ∈ l -> is_Some (blocks s !! h);
  index_height_nonneg : forall k l, (k, l) ∈ block_heights s -> 0 <= k;
  index_height_zero : exists hg, dict_get (block_heights s) 0 = Some [hg];
  index_work_nodup : NoDup (cumulative_work s).*1
}.

End ChainVocabulary.

Section FurtherSamples.
#[local] Existing Instance toy_hashing.
#[local] Existing Instance exact_work.

(** Two headers that differ only in how the digits of nonce and target
    are split. *)
Definition block_nonce_1_target_23 : Block :=
  set_nonce (setTarget Block_init 23) 1.

Definition block_nonce_12_target_3 : Block :=
  set_nonce (setTarget Block_init 3) 12.

(** What [mine] finds against the target 50. *)
Definition block_mined_50 : Block := set_nonce (setTarget Block_init 50) 10.

(** A child of the genesis block whose target was never set. *)
Definition block_no_target : Block := setPriorBlockHash Block_init 55.

(** One unspent output of amount 5 under the key [(7, 0)]. *)
Definition utxo_7 : UTXO := {[ (7, 0) := mkOutput None 5 ]}.

(** [utxo_7] after [block_overspend]: the 100 minted coins are spent,
    the 1000 coins of the second transaction are new. *)
Definition utxo_7_after_overspend : UTXO :=
  <[(233, 0) := mkOutput None 1000]> utxo_7.

(** The same entry guarded by a script that raises, as
    [lambda x: x[0] == 1] does on an empty satisfier. *)
Definition utxo_7_raising : UTXO :=
  {[ (7, 0) := mkOutput (Some (fun _ => Raise IndexError)) 5 ]}.

End FurtherSamples.

(** ** SHA-256 (FIPS 180-4), to run the source's own [Test] *)

Module SHA256.

Definition mask32 (x : Z) : Z := x mod 2 ^ 32.
Definition add32 (x y : Z) : Z := mask32 (x + y).
Definition rotr (n x : Z) : Z :=
  Z.lor (Z.shiftr x n) (mask32 (Z.shiftl x (32 - n))).
Definition shr (n x : Z) : Z := Z.shiftr x n.
Definition not32 (x : Z) : Z := Z.lxor x (2 ^ 32 - 1).

Definition Ch (x y z : Z) : Z := Z.lxor (Z.land x y) (Z.land (not32 x) z).
Definition Maj (x y z : Z) : Z :=
  Z.lxor (Z.lxor (Z.land x y) (Z.land x z)) (Z.land y z).
Definition bsig0 (x : Z) : Z :=
  Z.lxor (Z.lxor (rotr 2 x) (rotr 13 x)) (rotr 22 x).
Definition bsig1 (x : Z) : Z :=
  Z.lxor (Z.lxor (rotr 6 x) (rotr 11 x)) (rotr 25 x).
Definition ssig0 (x : Z) : Z :=
  Z.lxor (Z.lxor (rotr 7 x) (rotr 18 x)) (shr 3 x).
Definition ssig1 (x : Z) : Z :=
  Z.lxor (Z.lxor (rotr 17 x) (rotr 19 x)) (shr 10 x).

(** The round constants and the initial hash value. *)
Definition K : list Z :=
  [
    1116352408; 1899447441; 3049323471; 3921009573;
    961987163; 1508970993; 2453635748; 2870763221;
    3624381080; 310598401; 607225278; 1426881987;
    1925078388; 2162078206; 2614888103; 3248222580;
    3835390401; 4022224774; 264347078; 604807628;
    770255983; 1249150122; 1555081692; 1996064986;
    2554220882; 2821834349; 2952996808; 3210313671;
    3336571891; 3584528711; 113926993; 338241895;
    666307205; 773529912; 1294757372; 1396182291;
    1695183700; 1986661051; 2177026350; 2456956037;
    2730485921; 2820302411; 3259730800; 3345764771;
    3516065817; 3600352804; 4094571909; 275423344;
    430227734; 506948616; 659060556; 883997877;
    958139571; 1322822218; 1537002063; 1747873779;
    1955562222; 2024104815; 2227730452; 2361852424;
    2428436474; 2756734187; 3204031479; 3329325298
  ].

Definition H0 : Z * Z * Z * Z * Z * Z * Z * Z :=
  (1779033703, 3144134277, 1013904242, 2773480762, 1359893119, 2600822924, 528734635, 1541459225).

(** The message followed by the bit 1, zeros, and its length in bits as
    a 64-bit big-endian integer, to a multiple of 64 bytes. *)
Definition pad (msg : list byte) : list byte :=
  let l := Z.of_nat (length msg) in
  msg ++ [x80] ++ repeat x00 (Z.to_nat ((55 - l) mod 64))
      ++ be_bytes 8 (8 * l).

(** The sixteen big-endian words of a 64-byte block. *)
Fixpoint words (n : nat) (block : list byte) : list Z :=
  match n with
  | O => []
  | S n' => int_from_bytes (firstn 4 block) :: words n' (skipn 4 block)
  end.

(** The message schedule, most recent word first. *)
Fixpoint schedule (n : nat) (rev_w : list Z) : list Z :=
  match n with
  | O => rev_w
  | S n' =>
      let w :=
        add32 (add32 (ssig1 (nth 1 rev_w 0)) (nth 6 rev_w 0))
              (add32 (ssig0 (nth 14 rev_w 0)) (nth 15 rev_w 0)) in
      schedule n' (w :: rev_w)
  end.

Definition round (st : Z * Z * Z * Z * Z * Z * Z * Z) (kw : Z * Z)
  : Z * Z * Z * Z * Z * Z * Z * Z :=
  let '(a, b, c, d, e, f, g, h) := st in
  let t1 := add32 (add32 (add32 h (bsig1 e)) (Ch e f g))
                  (add32 (fst kw) (snd kw)) in
  let t2 := add32 (bsig0 a) (Maj a b c) in
  (add32 t1 t2, a, b, c, add32 d t1, e, f, g).

(** One 64-byte block folded into the hash value. *)
Definition compress (st : Z * Z * Z * Z * Z * Z * Z * Z) (block : list byte)
  : Z * Z * Z * Z * Z * Z * Z * Z :=
  let w := rev (schedule 48 (rev (words 16 block))) in
  let '(a, b, c, d, e, f, g, h) := fold_left round (combine K w) st in
  let '(a0, b0, c0, d0, e0, f0, g0, h0) := st in
  (add32 a0 a, add32 b0 b, add32 c0 c, add32 d0 d,
   add32 e0 e, add32 f0 f, add32 g0 g, add32 h0 h).

Fixpoint blocks_loop (n : nat) (st : Z * Z * Z * Z * Z * Z * Z * Z)
    (bs : list byte) : Z * Z * Z * Z * Z * Z * Z * Z :=
  match n with
  | O => st
  | S n' => blocks_loop n' (compress st (firstn 64 bs)) (skipn 64 bs)
  end.

(** [hashlib.sha256(msg).digest()] *)
Definition sha256 (msg : list byte) : list byte :=
  let p := pad msg in
  let '(a, b, c, d, e, f, g, h) := blocks_loop (length p / 64) H0 p in
  be_bytes 4 a ++ be_bytes 4 b ++ be_bytes 4 c ++ be_bytes 4 d
  ++ be_bytes 4 e ++ be_bytes 4 f ++ be_bytes 4 g ++ be_bytes 4 h.

End SHA256.

(** The development instantiated with SHA-256; the serializer stays a
    parameter. *)
Definition sha256_hashing (dumps : Transaction -> list byte) : Hashing :=
  {| sha256 := SHA256.sha256; dumps := dumps |}.

(** [bs.hex()] *)
Definition hex_digit (n : N) : ascii :=
  nth (N.to_nat n)
      (list_ascii_of_string "0123456789abcdef") "0"%char.

Definition hex (bs : list byte) : string :=
  string_of_list_ascii
    (flat_map (fun b => [hex_digit (N.div (Byte.to_N b) 16);
                         hex_digit (N.modulo (Byte.to_N b) 16)]) bs).

Section SourceTest.
Context (dumps : Transaction -> list byte).
#[local] Existing Instance GivesHash.

Let source_hashing : Hashing := sha256_hashing dumps.
#[local] Existing Instance source_hashing.

(** The three leaf hashes of the source's test. *)
Definition test_leaves : list Z :=
  [106874969902263813231722716312951672277654786095989753245644957127312510061509;
   66221123338548294768926909213040317907064779196821799240800307624498097778386;
   98188062817386391176748233602659695679763360599522475501622752979264247167302].

(** [calcMerkleRoot().to_bytes(32, "big").hex()] of a tree of [GivesHash]
    objects. *)
Definition merkle_root_hex (hashes : list Z) : Py string :=
  root ← calcMerkleRoot (HashableMerkleTree_init (Some hashes));
  bs ← to_bytes root 32;
  Ret (hex bs).

(** The function [Test] of the source: [Ret true] when every [assert]
    holds, [Ret false] when one fails; the two calls of [mine] are cut
    off after [fuel] nonces. *)
Definition Test (fuel : nat) : option (Py bool) :=
  match mine fuel Block_init (2 ^ 256 - 1), mine fuel Block_init (2 ^ 252 - 1) with
  | Some mined1, Some mined2 =>
      Some (b1 ← mined1; h1 ← Block_getHash b1;
            b2 ← mined2; h2 ← Block_getHash b2;
            if negb (h2 <? h1) then Ret false else
            let t0 := mkTransaction None
                        (Some [mkOutput (Some (fun _ => Ret (PyBool true))) 100])
                        None in
            if negb (Bool.eqb (validateMint t0 50) false) then Ret false else
            if negb (Bool.eqb (validateMint t0 100) true) then Ret false else
            hex1 ← merkle_root_hex (firstn 1 test_leaves);
            if negb (String.eqb hex1
                 "ec4916dd28fc4c10d78e287ca5d9cc51ee1ae73cbfde08c6b37324cbfaac8bc5")
            then Ret false else
            hex3 ← merkle_root_hex test_leaves;
            if negb (String.eqb hex3
                 "ea670d796aa1f950025c4d9e7caf6b92a5c56ebeb37b95b072ca92bc99011c20")
            then Ret false else
            Ret true)
  | _, _ => None
  end.

End SourceTest.

(** ** Two blocks with one header, under SHA-256 *)

(** SHA-256 with the serializer of the samples; the blocks below carry no
    transactions, so that the serializer is never called. *)
Definition sample_sha256_hashing : Hashing := sha256_hashing toy_dumps.

Section SharedHeader.
#[local] Existing Instance sample_sha256_hashing.
#[local] Existing Instance exact_work.

(** The decimal digits of [max_target] without the leading 1. *)
Definition short_target : Z :=
  15792089237316195423570985008687907853269984665640564039457584007913129639935.

(** The chain right after [Blockchain(max_target, 100)], and the hash of
    its genesis block. *)
Definition sha_chain0 : Blockchain :=
  match Blockchain_init 1 max_target 100 with
  | Some (Ret s) => s
  | _ => mkBlockchain 0 ∅ [] [] ∅ 0
  end.

Definition sha_genesis_hash : Z :=
  97004560952612504661420364083823744644706241553997292876818677186187933844850.

(** Two children of the genesis block without transactions.  The header
    of the first ends in the nonce 11 followed by the target 1157...9935,
    the header of the second in the nonce 111 followed by the target
    157...9935: the same string. *)
Definition block_nonce_11 : Block :=
  set_nonce
    (setPriorBlockHash (setTarget Block_init max_target) sha_genesis_hash) 11.

Definition block_nonce_111 : Block :=
  set_nonce
    (setPriorBlockHash (setTarget Block_init short_target) sha_genesis_hash)
    111.

(** The hash of both, below both targets. *)
Definition shared_hash : Z :=
  4971909233130689294382668892366247047769380684234180826366362090559207828776.

(** A child of the block stored under [shared_hash], and its hash. *)
Definition block_on_shared : Block :=
  set_nonce (setPriorBlockHash (setTarget Block_init max_target) shared_hash) 0.

Definition block_on_shared_hash : Z :=
  43836794107060499845091575448943287958381555644190782436647319470774396371242.

(** The chain after [extend(block_nonce_11)], then
    [extend(block_on_shared)], then [extend(block_nonce_111)]. *)
Definition sha_chain1 : Blockchain :=
  (Blockchain_extend sha_chain0 (Some block_nonce_11)).1.

Definition sha_chain2 : Blockchain :=
  (Blockchain_extend sha_chain1 (Some block_on_shared)).1.

Definition sha_chain3 : Blockchain :=
  (Blockchain_extend sha_chain2 (Some block_nonce_111)).1.

End SharedHeader.

(** * Properties *)

(** ** Output and Transaction *)

Lemma can_be_spent_no_constraint (o : Output) (sat : list PyVal) :
  constraint o = None -> can_be_spent o sat = PyBool true.
Proof. unfold can_be_spent. intros ->. reflexivity. Qed.

Lemma can_be_spent_raises (o : Output) f (sat : list PyVal) e :
  constraint o = Some f -> f sat = Raise e ->
  can_be_spent o sat = PyBool false.
Proof. unfold can_be_spent. intros -> ->. reflexivity. Qed.

Lemma can_be_spent_returns (o : Output) f (sat : list PyVal) v :
  constraint o = Some f -> f sat = Ret v -> can_be_spent o sat = v.
Proof. unfold can_be_spent. intros -> ->. reflexivity. Qed.

(** C3: the claim asks for a boolean, fail-closed result; on a script
    that returns the integer 1 [can_be_spent] returns that integer, which
    is not a boolean and counts as true, so that [Transaction.validate]
    lets the output be spent. *)
Theorem can_be_spent_non_boolean_result :
  can_be_spent out_script_one [] = PyInt 1 /\
  is_bool (can_be_spent out_script_one []) = false /\
  truthy (can_be_spent out_script_one []) = true /\
  Transaction_validate tx_spend_7 {[ (7, 0) := out_script_one ]} = true.
Proof. repeat split; reflexivity. Qed.

(** *** validateMint *)

(** C9 (as amended): with inputs absent and a non-empty list of outputs,
    [validateMint m] holds exactly when the total amount is at most [m];
    with inputs absent and no outputs it is false for every [m]. *)
Theorem validateMint_spec (tx : Transaction) (m : Z) :
  inputs tx = None ->
  (truthy_list (outputs tx) = true ->
     (validateMint tx m = true <->
      sum_amounts (default [] (outputs tx)) <= m)) /\
  (truthy_list (outputs tx) = false -> validateMint tx m = false).
Proof.
  intros Hin. unfold validateMint. rewrite Hin.
  destruct (outputs tx) as [[|o os]|]; simpl; split; try done.
  intros _. apply Z.leb_le.
Qed.

Lemma validateMint_spec_witness :
  inputs tx_mint_100 = None /\
  (validateMint tx_mint_100 100 = true <-> 100 <= 100) /\
  validateMint tx_mint_100 50 = false.
Proof.
  split; [reflexivity|]. split.
  - apply (proj1 (validateMint_spec tx_mint_100 100 eq_refl)). reflexivity.
  - reflexivity.
Defined.

(** C9, as stated, fails on a mint without outputs: its total 0 is within
    the cap 0, yet [validateMint] returns false. *)
Lemma validateMint_no_outputs_counterexample :
  inputs tx_mint_nothing = None /\
  ~ (validateMint tx_mint_nothing 0 = true <->
     sum_amounts (default [] (outputs tx_mint_nothing)) <= 0).
Proof.
  split; [reflexivity|]. intros [_ Hback].
  specialize (Hback ltac:(vm_compute; discriminate)). discriminate Hback.
Qed.

(** *** validate *)

(** C10: an empty (but present) input list takes the first [return True]
    of [Transaction.validate], whatever the outputs and the UTXO mapping,
    while [validateMint] rejects the same transaction. *)
Theorem validate_empty_inputs (outs : option (list Output))
    (d : option (list byte)) (U : UTXO) (m : Z) :
  Transaction_validate (mkTransaction (Some []) outs d) U = true /\
  validateMint (mkTransaction (Some []) outs d) m = false.
Proof. split; reflexivity. Qed.

Lemma validate_inputs_spendable (U : UTXO) (ins : list Input) (acc : Z) :
  Forall (spendable U) ins ->
  validate_inputs U ins acc
  = Some (fold_left (fun a inp => a + referenced_amount U inp) ins acc).
Proof.
  intros Hall. revert acc.
  induction Hall as [|inp rest [utxo [Hk Hok]] _ IH]; intros acc;
    cbn [validate_inputs fold_left].
  - reflexivity.
  - assert (Hamt : referenced_amount U inp = amount utxo)
      by (unfold referenced_amount; rewrite Hk; reflexivity).
    rewrite Hk, Hok, Hamt. cbn [negb]. apply IH.
Qed.

Lemma validate_inputs_Some (U : UTXO) (ins : list Input) (acc r : Z) :
  validate_inputs U ins acc = Some r -> Forall (spendable U) ins.
Proof.
  revert acc. induction ins as [|inp rest IH]; intros acc;
    cbn [validate_inputs].
  - constructor.
  - destruct (U !! utxo_key inp) as [utxo|] eqn:Hk; [|discriminate].
    destruct (truthy (can_be_spent utxo (satisfier inp))) eqn:Hok;
      simpl; [|discriminate].
    intros Hrest. constructor; [|eauto].
    exists utxo. split; assumption.
Qed.

(** [Transaction.validate] on a transaction with inputs and outputs, with
    every input counted as often as it occurs. *)
Lemma validate_spending (tx : Transaction) (U : UTXO) ins outs :
  inputs tx = Some ins -> ins <> [] ->
  outputs tx = Some outs -> outs <> [] ->
  Transaction_validate tx U = true <->
  Forall (spendable U) ins /\ input_total U ins >= sum_amounts outs.
Proof.
  intros Hin Hne Hout Hne'. unfold Transaction_validate.
  rewrite Hin, Hout.
  destruct ins as [|i ins]; [done|]. destruct outs as [|o outs]; [done|].
  cbn [truthy_list negb default from_option id].
  destruct (validate_inputs U (i :: ins) 0) as [r|] eqn:Hv.
  - pose proof (validate_inputs_Some _ _ _ _ Hv) as Hall.
    rewrite (validate_inputs_spendable _ _ _ Hall) in Hv.
    injection Hv as <-. unfold input_total.
    rewrite Z.geb_le. cbn [fold_left].
    split; [intros; split; [done|lia] | intros [_ ?]; lia].
  - split; [discriminate|]. intros [Hall _].
    rewrite (validate_inputs_spendable _ _ _ Hall) in Hv. discriminate.
Qed.

(** C2 (as amended): a transaction with inputs and without outputs is
    rejected; one with inputs that reference pairwise distinct entries
    and with outputs is accepted exactly when every input references an
    existing entry whose script accepts its satisfier and the referenced
    amounts cover the outputs. *)
Theorem validate_spending_distinct (tx : Transaction) (U : UTXO) ins :
  inputs tx = Some ins -> ins <> [] ->
  (truthy_list (outputs tx) = false -> Transaction_validate tx U = false) /\
  (forall outs, outputs tx = Some outs -> outs <> [] ->
     NoDup (utxo_key <$> ins) ->
     (Transaction_validate tx U = true <->
      Forall (spendable U) ins /\ input_total U ins >= sum_amounts outs)).
Proof.
  intros Hin Hne. split.
  - intros Hout. unfold Transaction_validate. rewrite Hin, Hout.
    destruct ins; [done|reflexivity].
  - intros outs Hout Hne' _. by apply validate_spending.
Qed.

Lemma validate_spending_distinct_witness :
  Transaction_validate tx_spend_7_no_outputs {[ (7, 0) := mkOutput None 5 ]}
  = false /\
  (Transaction_validate tx_spend_7 {[ (7, 0) := mkOutput None 5 ]} = true <->
   Forall (spendable {[ (7, 0) := mkOutput None 5 ]}) [mkInput 7 0 []] /\
   input_total {[ (7, 0) := mkOutput None 5 ]} [mkInput 7 0 []]
   >= sum_amounts [mkOutput None 5]).
Proof.
  split.
  - apply (validate_spending_distinct tx_spend_7_no_outputs _
             [mkInput 7 0 []] eq_refl); [discriminate|reflexivity].
  - apply (validate_spending_distinct tx_spend_7 _
             [mkInput 7 0 []] eq_refl); [discriminate|reflexivity|discriminate|].
    repeat constructor. set_solver.
Defined.

(** C2, as stated, fails in both directions.  A transaction without
    outputs is rejected although its only input references an existing,
    spendable entry of amount 5 and the outputs sum to 0; a transaction
    whose input list is empty is accepted although nothing covers its
    outputs of 5. *)
Lemma validate_iff_counterexample :
  (inputs tx_spend_7_no_outputs = Some [mkInput 7 0 []] /\
   Forall (spendable {[ (7, 0) := mkOutput None 5 ]}) [mkInput 7 0 []] /\
   input_total {[ (7, 0) := mkOutput None 5 ]} [mkInput 7 0 []]
   >= sum_amounts (default [] (outputs tx_spend_7_no_outputs)) /\
   Transaction_validate tx_spend_7_no_outputs {[ (7, 0) := mkOutput None 5 ]}
   = false) /\
  (inputs tx_no_inputs_pay_5 = Some [] /\
   ~ input_total ∅ [] >= sum_amounts (default [] (outputs tx_no_inputs_pay_5)) /\
   Transaction_validate tx_no_inputs_pay_5 ∅ = true).
Proof.
  split.
  - split; [reflexivity|]. split; [|split; [|reflexivity]].
    + constructor; [|constructor]. exists (mkOutput None 5). split; reflexivity.
    + vm_compute. discriminate.
  - split; [reflexivity|]. split; [|reflexivity].
    vm_compute. intros Hge. apply Hge. reflexivity.
Qed.

(** A transaction that references one entry of amount 5 twice is accepted
    for outputs of 10: the entry is counted twice. *)
Lemma validate_double_reference_accepted :
  Transaction_validate tx_spend_7_twice {[ (7, 0) := mkOutput None 5 ]} = true.
Proof. reflexivity. Qed.

(** ** HashableMerkleTree.calcMerkleRoot *)

Lemma list_pair_ind {A} (P : list A -> Prop) :
  P [] -> (forall x, P [x]) -> (forall x y l, P l -> P (x :: y :: l)) ->
  forall l, P l.
Proof.
  intros Hnil Hone Hstep.
  assert (Hboth : forall l, P l /\ forall x, P (x :: l)).
  { induction l as [|y l [IH1 IH2]]; split; auto. }
  intros l. apply Hboth.
Qed.

Lemma int_from_bytes_acc_bound (bs : list byte) (acc : Z) :
  0 <= acc ->
  0 <= fold_left (fun a b => a * 256 + Z.of_N (Byte.to_N b)) bs acc
    < (acc + 1) * 256 ^ Z.of_nat (length bs).
Proof.
  revert acc. induction bs as [|b bs IH]; intros acc Hacc.
  - simpl. lia.
  - cbn [fold_left length]. pose proof (Byte.to_N_bounded b) as Hb.
    specialize (IH (acc * 256 + Z.of_N (Byte.to_N b)) ltac:(lia)).
    rewrite Nat2Z.inj_succ, Z.pow_succ_r by lia.
    assert (0 < 256 ^ Z.of_nat (length bs)) by (apply Z.pow_pos_nonneg; lia).
    nia.
Qed.

Lemma int_from_bytes_bound (bs : list byte) :
  0 <= int_from_bytes bs < 256 ^ Z.of_nat (length bs).
Proof.
  unfold int_from_bytes.
  pose proof (int_from_bytes_acc_bound bs 0 ltac:(lia)). lia.
Qed.

Section MerkleProperties.
Context `{Hashing} `{!Sha256Digest}.

Lemma sha256_is_uint256 (bs : list byte) :
  is_uint256 (int_from_bytes (sha256 bs)).
Proof.
  unfold is_uint256. pose proof (int_from_bytes_bound (sha256 bs)) as Hb.
  rewrite sha256_length in Hb.
  change (256 ^ Z.of_nat 32) with (2 ^ 256) in Hb. exact Hb.
Qed.

Lemma to_bytes_uint256 (h : Z) :
  is_uint256 h -> to_bytes h 32 = Ret (be_bytes 32 h).
Proof.
  unfold is_uint256, to_bytes. intros Hh.
  change (2 ^ (8 * Z.of_nat 32)) with (2 ^ 256).
  destruct (Z.leb_spec 0 h); [|lia].
  destruct (Z.ltb_spec h (2 ^ 256)); [reflexivity|lia].
Qed.

Lemma spec_pair_level_uint256 (level : list Z) :
  Forall is_uint256 (spec_pair_level level).
Proof.
  induction level as [| |x y l IH] using list_pair_ind;
    cbn [spec_pair_level]; repeat constructor;
    try apply sha256_is_uint256; assumption.
Qed.

(** One turn of the [for] loop at an index whose left neighbour exists. *)
Lemma merkle_combine_pair (cur : list Z) (i : nat) (l r : Z) :
  cur !! i = Some l -> cur !! (i + 1)%nat = Some r ->
  is_uint256 l -> is_uint256 r ->
  merkle_combine cur i = Ret (spec_pair_hash l r).
Proof.
  intros Hl Hr Hul Hur. unfold merkle_combine, py_index.
  rewrite Hl. cbn [mbind Py_bind].
  apply lookup_lt_Some in Hr as Hlt.
  destruct (Nat.ltb_spec (i + 1) (length cur)); [|lia].
  rewrite Hr. cbn [mbind Py_bind].
  rewrite (to_bytes_uint256 _ Hul), (to_bytes_uint256 _ Hur). reflexivity.
Qed.

Lemma merkle_combine_last (cur : list Z) (i : nat) (l : Z) :
  cur !! i = Some l -> length cur = S i -> is_uint256 l ->
  merkle_combine cur i = Ret (spec_pair_hash l 0).
Proof.
  intros Hl Hlen Hul. unfold merkle_combine, py_index.
  rewrite Hl. cbn [mbind Py_bind].
  destruct (Nat.ltb_spec (i + 1) (length cur)); [lia|].
  cbn [mbind Py_bind].
  rewrite (to_bytes_uint256 _ Hul). 
  rewrite (to_bytes_uint256 0) by (unfold is_uint256; lia). reflexivity.
Qed.

(** The index-driven loop computes the pairing of the level. *)
Lemma merkle_level_suffix (pre suf : list Z) (k : nat) :
  length pre = (2 * k)%nat -> Forall is_uint256 suf ->
  mapM (merkle_combine (pre ++ suf))
       (map (fun j => 2 * j)%nat (seq k (Nat.div2 (S (length suf)))))
  = Ret (spec_pair_level suf).
Proof.
  revert pre k. induction suf as [|x|x y l IH] using list_pair_ind;
    intros pre k Hpre Hall.
  - reflexivity.
  - cbn [length Nat.div2 seq map mapM spec_pair_level].
    apply Forall_cons in Hall as [Hx _].
    rewrite (merkle_combine_last _ _ x).
    + reflexivity.
    + rewrite lookup_app_r by lia. rewrite Hpre, Nat.sub_diag. reflexivity.
    + rewrite length_app. simpl. lia.
    + assumption.
  - change (Nat.div2 (S (length (x :: y :: l))))
      with (S (Nat.div2 (S (length l)))).
    cbn [seq map mapM spec_pair_level].
    apply Forall_cons in Hall as [Hx Hall].
    apply Forall_cons in Hall as [Hy Hall].
    rewrite (merkle_combine_pair _ _ x y); try assumption.
    + cbn [mbind Py_bind].
      replace (pre ++ x :: y :: l) with ((pre ++ [x; y]) ++ l)
        by (rewrite <- app_assoc; reflexivity).
      rewrite IH; [reflexivity| |assumption].
      rewrite length_app. simpl. lia.
    + rewrite lookup_app_r by lia. rewrite Hpre, Nat.sub_diag. reflexivity.
    + rewrite lookup_app_r by lia.
      replace (2 * k + 1 - length pre)%nat with 1%nat by lia. reflexivity.
Qed.

Lemma merkle_next_level_spec (level : list Z) :
  Forall is_uint256 level ->
  merkle_next_level level = Ret (spec_pair_level level).
Proof.
  intros Hall. unfold merkle_next_level, range_step2.
  apply (merkle_level_suffix [] level 0); [reflexivity|assumption].
Qed.

Lemma merkle_loop_spec (level : list Z) :
  level <> [] -> (2 <= length level)%nat -> Forall is_uint256 level ->
  exists r, merkle_loop level = Ret r /\ spec_merkle_root level r.
Proof.
  funelim (merkle_loop level); intros Hne Hlen Hall.
  - done.
  - simpl in Hlen. lia.
  - clear H2 Heqcall.
    assert (Hlvl : spec_pair_level (a :: b :: rest) = next_level)
      by (rewrite (merkle_next_level_spec _ Hall) in Hnext; congruence).
    destruct next_level as [|c [|d l]].
    + discriminate.
    + exists c. simp merkle_loop. split; [reflexivity|].
      constructor. rewrite Hlvl. constructor.
    + destruct H1 as [r [Hr Hspec]]; [done|simpl; lia| |].
      * rewrite <- Hlvl. apply spec_pair_level_uint256.
      * exists r. split; [assumption|]. constructor. rewrite Hlvl. exact Hspec.
  - exfalso. pose proof (merkle_next_level_spec _ Hall). congruence.
Qed.

Lemma spec_merkle_root_unique (level : list Z) (r1 r2 : Z) :
  spec_merkle_root level r1 -> spec_merkle_root level r2 -> r1 = r2.
Proof.
  intros H1. revert r2.
  induction H1 as [|h|a b rest r _ IH]; intros r2 H2; inversion H2; subst;
    auto.
Qed.

(** C8: the root of the empty sequence is 0, the root of a single item is
    that item's hash, and the root of a longer sequence of 256-bit hashes
    is what repeated pairing from the left gives, the last hash of a
    level of odd length being paired with zero. *)
Theorem calcMerkleRoot_spec {A} `{Hashable A} (items : list A) :
  ((2 <= length items)%nat ->
   Forall (fun x => is_uint256 (getHash x)) items) ->
  exists r,
    calcMerkleRoot (HashableMerkleTree_init (Some items)) = Ret r /\
    spec_merkle_root (getHash <$> items) r /\
    (items = [] -> r = 0) /\
    (forall x, items = [x] -> r = getHash x).
Proof.
  intros Hall. destruct items as [|x [|y l]].
  - exists 0. repeat split; [constructor | discriminate].
  - exists (getHash x). unfold calcMerkleRoot. cbn. simp merkle_loop.
    repeat split; [constructor | discriminate | congruence].
  - specialize (Hall ltac:(simpl; lia)).
    destruct (merkle_loop_spec (getHash <$> x :: y :: l)) as [r [Hr Hspec]].
    + discriminate.
    + simpl. lia.
    + apply Forall_fmap. exact Hall.
    + exists r. repeat split; try discriminate; assumption.
Qed.

End MerkleProperties.

(** ** Block.validate *)

Section BlockProperties.
Context `{Hashing}.

Lemma validate_loop_app (m : Z) (idx : nat) (l1 l2 : list Transaction) st :
  validate_loop m idx (l1 ++ l2) st
  = match validate_loop m idx l1 st with
    | None => None
    | Some st' => validate_loop m (idx + length l1) l2 st'
    end.
Proof.
  revert idx st. induction l1 as [|tx l1 IH]; intros idx st; simpl.
  - f_equal. lia.
  - destruct (validate_tx m idx tx st) as [st'|]; [|reflexivity].
    rewrite IH. replace (S idx + length l1)%nat with (idx + S (length l1))%nat
      by lia. reflexivity.
Qed.

(** The inner loop accepts inputs that reference distinct, unspent,
    spendable entries, and marks exactly their keys as spent. *)
Lemma spend_inputs_accepts (cur : UTXO) (ins : list Input)
    (spent : gset (Z * Z)) :
  NoDup (utxo_key <$> ins) ->
  Forall (fun inp => (utxo_key inp ∉ spent) /\ spendable cur inp) ins ->
  spend_inputs cur ins spent
  = Some (list_to_set (utxo_key <$> ins) ∪ spent).
Proof.
  revert spent. induction ins as [|inp rest IH]; intros spent Hnd Hall;
    cbn [spend_inputs fmap list_fmap].
  - f_equal. rewrite list_to_set_nil. by rewrite (left_id_L ∅ (∪)).
  - apply NoDup_cons in Hnd as [Hnotin Hnd].
    apply Forall_cons in Hall as [[Hfresh [utxo [Hk Hok]]] Hall].
    rewrite bool_decide_eq_false_2 by assumption.
    rewrite Hk, Hok. cbn [negb]. rewrite IH.
    + f_equal. apply set_eq. intros x.
      rewrite list_to_set_cons, !elem_of_union. tauto.
    + assumption.
    + rewrite Forall_forall in Hall |- *. intros inp' Hin.
      destruct (Hall inp' Hin) as [Hf Hs]. split; [|assumption].
      intros [Heq%elem_of_singleton|Hold]%elem_of_union; [|done].
      apply Hnotin. rewrite <- Heq. by apply list_elem_of_fmap_2.
Qed.

Lemma insert_outputs_other (tx_hash : Z) (idx : nat) (outs : list Output)
    (cur : UTXO) (k : Z * Z) :
  k.1 <> tx_hash \/ k.2 < Z.of_nat idx ->
  insert_outputs tx_hash idx outs cur !! k = cur !! k.
Proof.
  revert idx cur. induction outs as [|out rest IH]; intros idx cur Hk;
    cbn [insert_outputs].
  - reflexivity.
  - rewrite IH by (destruct Hk; [left; assumption | right; lia]).
    apply lookup_insert_ne. destruct k as [k1 k2]. simpl in Hk.
    intros [= E1 E2]. lia.
Qed.

Lemma insert_outputs_lookup (tx_hash : Z) (idx : nat) (outs : list Output)
    (cur : UTXO) (i : nat) (out : Output) :
  outs !! i = Some out ->
  insert_outputs tx_hash idx outs cur !! (tx_hash, Z.of_nat (idx + i)) = Some out.
Proof.
  revert idx cur i. induction outs as [|o rest IH]; intros idx cur i Hi.
  - discriminate.
  - destruct i as [|i]; cbn [insert_outputs]; simpl in Hi.
    + injection Hi as ->. rewrite insert_outputs_other by (right; simpl; lia).
      rewrite Nat.add_0_r. apply lookup_insert_eq.
    + replace (idx + S i)%nat with (S idx + i)%nat by lia. apply IH, Hi.
Qed.

Lemma delete_spent_lookup (cur : UTXO) (spent : gset (Z * Z)) (k : Z * Z) :
  (k ∈ spent -> delete_spent cur spent !! k = None) /\
  (k ∉ spent -> delete_spent cur spent !! k = cur !! k).
Proof.
  unfold delete_spent.
  apply (set_fold_ind_L
           (fun m X => (k ∈ X -> m !! k = None) /\ (k ∉ X -> m !! k = cur !! k))).
  - split; [intros []%not_elem_of_empty | reflexivity].
  - intros x X m Hx [IH1 IH2]. destruct (decide (x = k)) as [->|Hne].
    + rewrite lookup_delete_eq. split; [reflexivity|].
      intros Hnot. exfalso. apply Hnot, elem_of_union_l, elem_of_singleton.
      reflexivity.
    + rewrite lookup_delete_ne by assumption. split.
      * intros [Hk%elem_of_singleton|Hk]%elem_of_union; [congruence|auto].
      * intros Hnot. apply IH2. intros Hk. apply Hnot, elem_of_union_r, Hk.
Qed.

(** Every key of [spent] is a key of the running view, so that the
    closing [del current_utxos[utxo_key]] never raises [KeyError]. *)
Lemma spend_inputs_stored (cur : UTXO) (ins : list Input)
    (spent spent' : gset (Z * Z)) :
  spend_inputs cur ins spent = Some spent' ->
  (forall k, k ∈ spent -> is_Some (cur !! k)) ->
  forall k, k ∈ spent' -> is_Some (cur !! k).
Proof.
  revert spent. induction ins as [|inp rest IH]; intros spent;
    cbn [spend_inputs].
  - intros [= <-]. auto.
  - case_bool_decide; [discriminate|].
    destruct (cur !! utxo_key inp) as [utxo|] eqn:Hk; [|discriminate].
    destruct (negb _); [discriminate|].
    intros Hrest Hstored. apply (IH _ Hrest).
    intros k [->%elem_of_singleton|Hin]%elem_of_union; [eauto|auto].
Qed.

Lemma insert_outputs_stored (tx_hash : Z) (idx : nat) (outs : list Output)
    (cur : UTXO) (k : Z * Z) :
  is_Some (cur !! k) -> is_Some (insert_outputs tx_hash idx outs cur !! k).
Proof.
  revert idx cur. induction outs as [|out rest IH]; intros idx cur Hk;
    cbn [insert_outputs]; [assumption|].
  apply IH. rewrite lookup_insert_is_Some. destruct Hk as [x Hx].
  destruct (decide ((tx_hash, Z.of_nat idx) = k)); [left|right]; eauto.
Qed.

Lemma add_outputs_stored (tx : Transaction) (cur : UTXO) (k : Z * Z) :
  is_Some (cur !! k) -> is_Some (add_outputs tx cur !! k).
Proof.
  unfold add_outputs. destruct (truthy_list (outputs tx)); [|done].
  apply insert_outputs_stored.
Qed.

Lemma validate_loop_stored (m : Z) (txs : list Transaction) :
  forall (idx : nat) (cur cur' : UTXO) (spent spent' : gset (Z * Z)),
  validate_loop m idx txs (cur, spent) = Some (cur', spent') ->
  (forall k, k ∈ spent -> is_Some (cur !! k)) ->
  forall k, k ∈ spent' -> is_Some (cur' !! k).
Proof.
  induction txs as [|tx rest IH]; intros idx cur cur' spent spent';
    cbn [validate_loop].
  - intros [= <- <-]. auto.
  - destruct (validate_tx m idx tx (cur, spent)) as [[cur1 spent1]|] eqn:Htx;
      [|discriminate].
    intros Hrest Hstored. apply (IH _ _ _ _ _ Hrest).
    unfold validate_tx in Htx. destruct (idx =? 0)%nat.
    + destruct (_ || _); [discriminate|]. injection Htx as <- <-.
      intros k Hk. apply add_outputs_stored, Hstored, Hk.
    + destruct (inputs tx) as [ins|]; [|discriminate].
      destruct (spend_inputs cur ins spent) as [sp|] eqn:Hsp; [|discriminate].
      injection Htx as <- <-. intros k Hk.
      apply add_outputs_stored. eapply spend_inputs_stored; eassumption.
Qed.

(** C4 (as amended): a non-empty block whose hash is below its target is
    invalid as soon as its first transaction has inputs, or has outputs
    and fails [validateMint]; that is, a block is only accepted when its
    first transaction is a coinbase that either has no outputs or
    satisfies [validateMint]. *)
Theorem validate_first_transaction (b : Block) (U : UTXO) (m : Z)
    (tx0 : Transaction) (rest : list Transaction) (h tgt : Z) :
  objects (bc_data (block_contents b)) = tx0 :: rest ->
  Block_getHash b = Ret h -> target b = Some tgt -> h < tgt ->
  is_Some (inputs tx0)
  \/ (truthy_list (outputs tx0) = true /\ validateMint tx0 m = false) ->
  Block_validate b U m = Ret None.
Proof.
  intros Htxs Hh Ht Hlt Hbad. unfold Block_validate.
  rewrite Hh. cbn [mbind Py_bind]. rewrite Ht, Htxs.
  replace (h >=? tgt) with false by (symmetry; rewrite Z.geb_leb; lia).
  cbn [validate_loop validate_tx Nat.eqb].
  destruct Hbad as [Hin|[Hout Hmint]].
  - rewrite bool_decide_eq_true_2 by assumption. reflexivity.
  - rewrite Hout, Hmint, orb_true_r. reflexivity.
Qed.

(** C1: after a valid coinbase and accepted transactions in between, a
    further transaction with inputs is passed by the loop although its
    outputs exceed what its inputs reference, as long as the inputs
    reference distinct entries of the running view that are not yet spent
    in the block and whose scripts accept the satisfiers: its outputs
    enter the running view, and the block's fate is left to the
    transactions after it.  When it is the last transaction the block is
    accepted, and its outputs are part of the returned mapping (unless
    the block spends those very keys). *)
Theorem validate_accepts_overspending (b : Block) (U : UTXO) (m : Z)
    (h tgt : Z) (cb : Transaction) (pre : list Transaction)
    (tx : Transaction) (post : list Transaction)
    (ins : list Input) (outs : list Output)
    (cur : UTXO) (spent : gset (Z * Z)) :
  Block_getHash b = Ret h -> target b = Some tgt -> h < tgt ->
  objects (bc_data (block_contents b)) = cb :: pre ++ tx :: post ->
  inputs cb = None -> validateMint cb m = true ->
  validate_loop m 1 pre (add_outputs cb U, ∅) = Some (cur, spent) ->
  inputs tx = Some ins -> outputs tx = Some outs ->
  NoDup (utxo_key <$> ins) ->
  Forall (fun inp => (utxo_key inp ∉ spent) /\ spendable cur inp) ins ->
  sum_amounts outs > input_total cur ins ->
  Block_validate b U m
  = Ret (finish_validate
           (validate_loop m (S (S (length pre))) post
              (add_outputs tx cur, list_to_set (utxo_key <$> ins) ∪ spent))) /\
  (forall i out, outs !! i = Some out ->
     add_outputs tx cur !! (getHash tx, Z.of_nat i) = Some out) /\
  (post = [] ->
   exists U',
     Block_validate b U m = Ret (Some U') /\
     forall i out, outs !! i = Some out ->
       (getHash tx, Z.of_nat i) ∉ spent ->
       (getHash tx, Z.of_nat i) ∉ utxo_key <$> ins ->
       U' !! (getHash tx, Z.of_nat i) = Some out).
Proof.
  intros Hh Ht Hlt Htxs Hcb Hmint Hpre Hin Hout Hnd Hall _.
  assert (Hrun : Block_validate b U m
                 = Ret (finish_validate
                          (validate_loop m (S (S (length pre))) post
                             (add_outputs tx cur,
                              list_to_set (utxo_key <$> ins) ∪ spent)))).
  { unfold Block_validate. rewrite Hh. cbn [mbind Py_bind]. rewrite Ht, Htxs.
    replace (h >=? tgt) with false by (symmetry; rewrite Z.geb_leb; lia).
    cbn [validate_loop]. unfold validate_tx at 1. cbn [Nat.eqb].
    rewrite Hcb, Hmint. rewrite bool_decide_eq_false_2 by (intros [? [=]]).
    rewrite andb_false_r. cbn [orb].
    rewrite validate_loop_app, Hpre. cbn [validate_loop].
    unfold validate_tx at 1.
    replace (1 + length pre =? 0)%nat with false by reflexivity.
    rewrite Hin, (spend_inputs_accepts _ _ _ Hnd Hall). reflexivity. }
  assert (Hadded : forall i out, outs !! i = Some out ->
            add_outputs tx cur !! (getHash tx, Z.of_nat i) = Some out).
  { intros i out Hi. unfold add_outputs. rewrite Hout.
    destruct outs as [|o outs]; [discriminate|].
    cbn [truthy_list default from_option id].
    apply (insert_outputs_lookup _ 0 _ _ i), Hi. }
  split; [exact Hrun|]. split; [exact Hadded|].
  intros ->. rewrite Hrun. cbn [validate_loop finish_validate].
  eexists. split; [reflexivity|].
  intros i out Hi Hs1 Hs2.
  rewrite (proj2 (delete_spent_lookup _ _ _)); [by apply Hadded|].
  intros [Hl|?]%elem_of_union; [|done].
  apply Hs2. apply elem_of_list_to_set in Hl. exact Hl.
Qed.

End BlockProperties.

(** ** Blockchain.extend and Blockchain.getTip *)

Section ChainProperties.
Context `{Hashing} `{WorkNum}.

(** C6: when [extend] returns false, whether for a missing block, an
    unknown parent, a missing parent snapshot or a failed validation, the
    state after the call is the state before it. *)
Theorem extend_false_unchanged (s s' : Blockchain) (block : option Block) :
  Blockchain_extend s block = (s', Ret false) -> s' = s.
Proof.
  unfold Blockchain_extend. intros Hext.
  repeat case_match; try discriminate Hext; by injection Hext.
Qed.

(** *** Dictionaries in insertion order *)

Lemma dict_get_set_eq {V} (d : list (Z * V)) (k : Z) (v : V) :
  dict_get (dict_set d k v) k = Some v.
Proof.
  induction d as [|[k' v'] d IH]; simpl.
  - rewrite Z.eqb_refl. reflexivity.
  - destruct (k' =? k) eqn:E; simpl; rewrite E; [reflexivity|exact IH].
Qed.

Lemma dict_get_set_ne {V} (d : list (Z * V)) (k k' : Z) (v : V) :
  k <> k' -> dict_get (dict_set d k v) k' = dict_get d k'.
Proof.
  intros Hne. induction d as [|[k0 v0] d IH]; simpl.
  - destruct (Z.eqb_spec k k'); [contradiction|reflexivity].
  - destruct (Z.eqb_spec k0 k) as [->|]; simpl.
    + destruct (Z.eqb_spec k k'); [contradiction|reflexivity].
    + rewrite IH. reflexivity.
Qed.

Lemma dict_get_elem {V} (d : list (Z * V)) (k : Z) (v : V) :
  dict_get d k = Some v -> (k, v) ∈ d.
Proof.
  induction d as [|[k0 v0] d IH]; simpl; [discriminate|].
  destruct (Z.eqb_spec k0 k) as [->|].
  - intros [= ->]. apply list_elem_of_here.
  - intros Hd. apply list_elem_of_further, IH, Hd.
Qed.

Lemma dict_elem_get {V} (d : list (Z * V)) (k : Z) (v : V) :
  (k, v) ∈ d -> is_Some (dict_get d k).
Proof.
  induction d as [|[k0 v0] d IH]; simpl.
  - intros []%not_elem_of_nil.
  - intros [[= -> ->]|Hin]%elem_of_cons.
    + rewrite Z.eqb_refl. eauto.
    + destruct (k0 =? k); [eauto|apply IH, Hin].
Qed.

Lemma dict_set_elem {V} (d : list (Z * V)) (k : Z) (v : V) (e : Z * V) :
  e ∈ dict_set d k v -> e ∈ d \/ e = (k, v).
Proof.
  induction d as [|[k0 v0] d IH]; simpl.
  - intros [->|[]%not_elem_of_nil]%elem_of_cons. right. reflexivity.
  - destruct (Z.eqb_spec k0 k) as [->|].
    + intros [->|Hin]%elem_of_cons; [right; reflexivity|].
      left. apply list_elem_of_further, Hin.
    + intros [->|Hin]%elem_of_cons; [left; apply list_elem_of_here|].
      destruct (IH Hin) as [?|?]; [left|right; assumption].
      apply list_elem_of_further. assumption.
Qed.


(** *** What an accepted block guarantees *)

Lemma Block_getHash_nonneg (b : Block) (h : Z) :
  Block_getHash b = Ret h -> 0 <= h.
Proof.
  unfold Block_getHash.
  destruct (calcMerkleRoot (bc_data (block_contents b))); cbn; [|discriminate].
  intros [= <-]. apply int_from_bytes_bound.
Qed.

Lemma Block_validate_accepts (b : Block) (U U' : UTXO) (m : Z) :
  Block_validate b U m = Ret (Some U') ->
  exists h tgt, Block_getHash b = Ret h /\ target b = Some tgt /\ h < tgt.
Proof.
  unfold Block_validate.
  destruct (Block_getHash b) as [h|]; cbn [mbind Py_bind]; [|discriminate].
  destruct (target b) as [tgt|]; [|discriminate].
  destruct (h >=? tgt) eqn:E; [discriminate|]. intros _.
  exists h, tgt. repeat split. rewrite Z.geb_leb in E. lia.
Qed.

Lemma Block_validate_same_commitment (b b' : Block) (U : UTXO) (m : Z) :
  Block_getHash b' = Block_getHash b -> same_commitment b b' ->
  Block_validate b' U m = Block_validate b U m.
Proof.
  intros Hh (_ & Ht & Hc). unfold Block_validate. rewrite Hh, Ht, Hc.
  reflexivity.
Qed.

(** The shape of a call of [extend] that gets past validation: the three
    failures after the first assignment, or success. *)
Lemma extend_cases (s s' : Blockchain) (b : Block) (r : Py bool) :
  Blockchain_extend s (Some b) = (s', r) ->
  (s' = s /\ r <> Ret true) \/
  exists p pb pu nu h tgt,
    prior_block_hash b = Some p /\ blocks s !! p = Some pb /\
    utxo_sets s !! p = Some (Some pu) /\
    Block_validate b pu (maxMintCoinsPerTx s) = Ret (Some nu) /\
    Block_getHash b = Ret h /\ target b = Some tgt /\ h < tgt /\
    let s1 := set_blocks_utxos s h b nu in
    match find_height (block_heights s) p with
    | None => s' = s1 /\ r = Raise StopIteration
    | Some kp =>
        let s2 := set_block_heights s1
                    (heights_append (block_heights s) (kp + 1) h) in
        match dict_get (cumulative_work s) p with
        | None => s' = s2 /\ r = Raise KeyError
        | Some wp =>
            s' = set_cumulative_work s2
                   (dict_set (cumulative_work s) h
                      (num_add wp (getWork (genesisTarget s) tgt))) /\
            r = Ret true
        end
    end.
Proof.
  unfold Blockchain_extend. intros Hext.
  assert (Hsame : forall r0, r0 <> Ret true -> (s, r0) = (s', r) ->
                    s' = s /\ r <> Ret true)
    by (intros r0 Hr0 [= <- <-]; split; [reflexivity|assumption]).
  destruct (prior_block_hash b) as [p|]; [|left; eapply Hsame; [|exact Hext]; discriminate].
  destruct (blocks s !! p) as [pb|] eqn:Hp; [|left; eapply Hsame; [|exact Hext]; discriminate].
  destruct (utxo_sets s !! p) as [[pu|]|] eqn:Hu; cbn [mjoin option_join] in Hext;
    try (left; eapply Hsame; [|exact Hext]; discriminate).
  destruct (Block_validate b pu (maxMintCoinsPerTx s)) as [[nu|]|] eqn:Hv;
    try (left; eapply Hsame; [|exact Hext]; discriminate).
  destruct (Block_validate_accepts _ _ _ _ Hv) as (h & tgt & Hh & Ht & Hlt).
  rewrite Hh, Ht in Hext.
  cbn [block_heights cumulative_work genesisTarget set_blocks_utxos
       set_block_heights] in Hext.
  right. exists p, pb, pu, nu, h, tgt. repeat (split; [done|]). cbn zeta.
  destruct (find_height (block_heights s) p) as [kp|];
    [|injection Hext as <- <-; split; reflexivity].
  destruct (dict_get (cumulative_work s) p) as [wp|];
    injection Hext as <- <-; split; reflexivity.
Qed.

(** *** Mining and the initial state *)

Lemma mine_loop_solves (fuel : nat) (tgt : Z) (b b' : Block) :
  mine_loop fuel tgt b = Some (Ret b') ->
  (exists h, Block_getHash b' = Ret h /\ h < tgt) /\
  prior_block_hash b' = prior_block_hash b /\
  target b' = target b /\
  block_contents b' = block_contents b.
Proof.
  revert b. induction fuel as [|fuel IH]; intros b; cbn [mine_loop].
  - discriminate.
  - destruct (Block_getHash b) as [h|] eqn:Hh; [|discriminate].
    destruct (h >=? tgt) eqn:E.
    + intros Hrec. destruct (IH _ Hrec) as (Hsolved & Hp & Ht & Hc).
      repeat split; assumption.
    + intros [= <-]. repeat split. exists h. split; [assumption|].
      rewrite Z.geb_leb in E. lia.
Qed.

Lemma Blockchain_init_state (fuel : nat) (gt mm : Z) (s : Blockchain) :
  Blockchain_init fuel gt mm = Some (Ret s) ->
  exists g hg,
    Block_getHash g = Ret hg /\ 0 <= hg < gt /\
    prior_block_hash g = Some 0 /\
    blocks s = {[hg := g]} /\
    block_heights s = [(0, [hg])] /\
    cumulative_work s = [(hg, getWork gt gt)] /\
    genesisTarget s = gt.
Proof.
  unfold Blockchain_init, mine.
  destruct (mine_loop _ _ _) as [[g|]|] eqn:Hmine; [|discriminate..].
  destruct (mine_loop_solves _ _ _ _ Hmine) as ((hg & Hh & Hlt) & Hp & _ & _).
  rewrite Hh. cbn [mbind Py_bind].
  destruct (Block_validate g ∅ mm) as [u|]; [|discriminate].
  intros [= <-]. exists g, hg. cbn.
  pose proof (Block_getHash_nonneg _ _ Hh).
  repeat split; try done; lia.
Qed.

(** *** The recorded works are never negative *)

Section WorkInvariant.
Context `{!WorkNumLaws}.






End WorkInvariant.

(** *** The height index *)

Lemma dict_set_set {V} (d : list (Z * V)) (k : Z) (v v' : V) :
  dict_set (dict_set d k v) k v' = dict_set d k v'.
Proof.
  induction d as [|[k0 v0] d IH]; simpl.
  - rewrite Z.eqb_refl. reflexivity.
  - destruct (k0 =? k) eqn:E; simpl; rewrite E; [reflexivity|].
    rewrite IH. reflexivity.
Qed.

Lemma heights_append_eq (bh : list (Z * list Z)) (k0 h0 : Z) :
  heights_append bh k0 h0
  = dict_set bh k0 (default [] (dict_get bh k0) ++ [h0]).
Proof.
  unfold heights_append. destruct (dict_get bh k0) as [l|] eqn:E.
  - rewrite E. reflexivity.
  - rewrite dict_get_set_eq, dict_set_set. reflexivity.
Qed.

Lemma find_height_elem (bh : list (Z * list Z)) (h k : Z) :
  find_height bh h = Some k -> exists l, (k, l) ∈ bh /\ h ∈ l.
Proof.
  induction bh as [|[k' l'] bh IH]; cbn [find_height]; [discriminate|].
  case_bool_decide as Hin.
  - intros [= ->]. exists l'. split; [apply list_elem_of_here|assumption].
  - intros Hf. destruct (IH Hf) as (l & Hl & Hh). exists l.
    split; [apply list_elem_of_further|]; assumption.
Qed.

Lemma find_height_is_Some (bh : list (Z * list Z)) (h k : Z) (l : list Z) :
  (k, l) ∈ bh -> h ∈ l -> is_Some (find_height bh h).
Proof.
  induction bh as [|[k' l'] bh IH]; cbn [find_height].
  - intros []%not_elem_of_nil.
  - intros [[= <- <-]|Hin]%elem_of_cons Hh.
    + rewrite bool_decide_eq_true_2 by assumption. eauto.
    + case_bool_decide; [eauto|]. by apply IH.
Qed.

(** Appending [h0] at height [k0] leaves the height of every other hash
    as it was. *)
Lemma find_height_append_ne (bh : list (Z * list Z)) (k0 h0 h : Z) :
  h <> h0 ->
  find_height (dict_set bh k0 (default [] (dict_get bh k0) ++ [h0])) h
  = find_height bh h.
Proof.
  intros Hne. induction bh as [|[k l] bh IH]; cbn [dict_get dict_set].
  - cbn. rewrite bool_decide_eq_false_2; [reflexivity|].
    intros [?|[]%not_elem_of_nil]%elem_of_cons. contradiction.
  - destruct (Z.eqb_spec k k0) as [->|]; cbn [find_height default from_option id].
    + assert (Hiff : h ∈ l ++ [h0] <-> h ∈ l).
      { rewrite elem_of_app, list_elem_of_singleton. tauto. }
      destruct (decide (h ∈ l)).
      * rewrite !bool_decide_eq_true_2; tauto.
      * rewrite !bool_decide_eq_false_2; tauto.
    + rewrite IH. reflexivity.
Qed.

(** The appended hash is found at height [k0], provided it was recorded
    at no other height before. *)
Lemma find_height_append_eq (bh : list (Z * list Z)) (k0 h0 : Z) :
  (forall k l, (k, l) ∈ bh -> h0 ∈ l -> k = k0) ->
  find_height (dict_set bh k0 (default [] (dict_get bh k0) ++ [h0])) h0
  = Some k0.
Proof.
  induction bh as [|[k l] bh IH]; intros Huniq; cbn [dict_get dict_set].
  - cbn. rewrite bool_decide_eq_true_2; [reflexivity|apply list_elem_of_here].
  - destruct (Z.eqb_spec k k0) as [->|Hk]; cbn [find_height default from_option id].
    + rewrite bool_decide_eq_true_2; [reflexivity|].
      apply elem_of_app. right. apply list_elem_of_here.
    + rewrite bool_decide_eq_false_2.
      * apply IH. intros k' l' Hin. apply Huniq, list_elem_of_further, Hin.
      * intros Hin. apply Hk, (Huniq k l); [apply list_elem_of_here|assumption].
Qed.

(** The hashes recorded after appending are [h0] at height [k0] and those
    recorded before. *)
Lemma heights_append_elem (bh : list (Z * list Z)) (k0 h0 k h : Z)
    (l : list Z) :
  (k, l) ∈ dict_set bh k0 (default [] (dict_get bh k0) ++ [h0]) -> h ∈ l ->
  (h = h0 /\ k = k0) \/ exists l', (k, l') ∈ bh /\ h ∈ l'.
Proof.
  induction bh as [|[k1 l1] bh IH]; cbn [dict_get dict_set].
  - cbn. intros [[= -> ->]|[]%not_elem_of_nil]%elem_of_cons
           [->|[]%not_elem_of_nil]%elem_of_cons. left. done.
  - destruct (Z.eqb_spec k1 k0) as [->|Hk]; cbn [default from_option id].
    + intros [[= -> ->]|Hin]%elem_of_cons Hh.
      * apply elem_of_app in Hh as [Hh|Hh%list_elem_of_singleton].
        -- right. exists l1. split; [apply list_elem_of_here|assumption].
        -- left. done.
      * right. exists l. split; [apply list_elem_of_further|]; assumption.
    + intros [[= -> ->]|Hin]%elem_of_cons Hh.
      * right. exists l1. split; [apply list_elem_of_here|assumption].
      * destruct (IH Hin Hh) as [?|(l' & Hl' & Hh')]; [left; assumption|].
        right. exists l'. split; [apply list_elem_of_further|]; assumption.
Qed.

(** *** The bookkeeping invariant *)

Lemma chain_inv_init (fuel : nat) (gt mm : Z) (s : Blockchain) (g : Block)
    (hg : Z) :
  Blockchain_init fuel gt mm = Some (Ret s) ->
  blocks s !! hg = Some g -> hg <> 0 -> chain_inv g s.
Proof.
  intros Hinit Hg Hnz.
  destruct (Blockchain_init_state _ _ _ _ Hinit)
    as (g' & hg' & Hh & _ & Hprior & Hblocks & Hbh & Hcw & _).
  rewrite Hblocks in Hg. apply lookup_singleton_Some in Hg as [-> ->].
  split.
  - assumption.
  - rewrite Hblocks. by apply lookup_singleton_ne.
  - intros h b. rewrite Hblocks. intros [<- <-]%lookup_singleton_Some.
    assumption.
  - intros h. unfold getCumulativeWork. rewrite Hblocks, Hcw. cbn.
    destruct (Z.eqb_spec hg h) as [->|Hne].
    + rewrite lookup_singleton_eq. split; eauto.
    + rewrite lookup_singleton_ne by assumption. split; intros [? [=]].
  - intros h. rewrite Hblocks, Hbh. cbn.
    destruct (decide (h = hg)) as [->|Hne].
    + rewrite lookup_singleton_eq, bool_decide_eq_true_2
        by apply list_elem_of_here. split; eauto.
    + rewrite lookup_singleton_ne, bool_decide_eq_false_2.
      * split; intros [? [=]].
      * intros [?|[]%not_elem_of_nil]%elem_of_cons. contradiction.
      * congruence.
  - intros h k l. rewrite Hbh.
    intros [[= -> ->]|[]%not_elem_of_nil]%elem_of_cons Hin.
    cbn. rewrite bool_decide_eq_true_2 by assumption. reflexivity.
  - intros h b. rewrite Hblocks. intros [<- <-]%lookup_singleton_Some.
    left. reflexivity.
Qed.

(** A link survives a call that leaves the records of all stored blocks
    as they were. *)
Lemma linked_stable (s s' : Blockchain) (x : Z) (bx : Block) :
  maxMintCoinsPerTx s' = maxMintCoinsPerTx s ->
  genesisTarget s' = genesisTarget s ->
  (forall y, is_Some (blocks s !! y) ->
     is_Some (blocks s' !! y) /\
     find_height (block_heights s') y = find_height (block_heights s) y /\
     getCumulativeWork s' y = getCumulativeWork s y /\
     utxo_sets s' !! y = utxo_sets s !! y) ->
  is_Some (blocks s !! x) -> linked s x bx -> linked s' x bx.
Proof.
  intros Hmm Hgt Hst Hx
    (p & kp & wp & tgt & pu & nu & Hp & Hpb & Hkp & Hkx & Hwp & Ht & Hwx
       & Hup & Hv & Hux).
  destruct (Hst p Hpb) as (Hp1 & Hp2 & Hp3 & Hp4).
  destruct (Hst x Hx) as (Hx1 & Hx2 & Hx3 & Hx4).
  exists p, kp, wp, tgt, pu, nu.
  rewrite Hmm, Hgt, Hp2, Hp3, Hp4, Hx2, Hx3, Hx4. repeat split; assumption.
Qed.

Lemma chain_inv_extend (g : Block) (s s' : Blockchain) (block : option Block)
    (r : Py bool) :
  chain_inv g s ->
  (forall b, block = Some b -> admissible s b) ->
  Blockchain_extend s block = (s', r) ->
  chain_inv g s' /\
  (r = Ret true ->
   exists b h, block = Some b /\ Block_getHash b = Ret h /\
               blocks s' !! h = Some b /\ linked s' h b).
Proof.
  intros Hinv Hadm Hext.
  destruct block as [b|];
    [|injection Hext as <- <-; split; [assumption|discriminate]].
  specialize (Hadm b eq_refl).
  destruct (extend_cases _ _ _ _ Hext)
    as [[-> Hr]|(p & pb & pu & nu & h & tgt & Hp & Hpb & Hu & Hv & Hh & Ht & Hlt & Hs')];
    [split; [assumption|contradiction]|].
  destruct (Hadm h Hh) as [Hnz Hsame].
  destruct Hinv as [Hgp Hzero Hhash Hwdom Hhdom Huniq Hlink].
  (* the parent has a height and a cumulative work *)
  destruct (proj1 (Hhdom p) ltac:(eauto)) as [kp Hkp].
  destruct (proj1 (Hwdom p) ltac:(eauto)) as [wp Hwp].
  unfold getCumulativeWork in Hwp. cbn zeta in Hs'. rewrite Hkp, Hwp in Hs'.
  destruct Hs' as [-> ->].
  (* if the hash is already stored, it is stored with these very records *)
  assert (Hold : is_Some (blocks s !! h) ->
                 find_height (block_heights s) h = Some (kp + 1) /\
                 getCumulativeWork s h
                 = Some (num_add wp (getWork (genesisTarget s) tgt)) /\
                 utxo_sets s !! h = Some (Some nu)).
  { intros [b' Hb']. pose proof (Hsame _ Hb') as Hcommit.
    pose proof (Hhash _ _ Hb') as Hh'.
    destruct Hcommit as (Epr & Etg & Ect).
    destruct (Hlink _ _ Hb') as [->|Hl].
    - rewrite Hgp in Epr. rewrite <- Epr in Hp. injection Hp as <-. congruence.
    - destruct Hl as (p' & kp' & wp' & tgt' & pu' & nu' & Hp' & _ & Hkp' & Hkh
                        & Hwp' & Ht' & Hwh & Hup' & Hv' & Huh).
      rewrite (Block_validate_same_commitment b b') in Hv'
        by (rewrite ?Hh, ?Hh'; done).
      rewrite Epr in Hp'. rewrite Etg in Ht'.
      unfold getCumulativeWork in *.
      assert (p' = p) as -> by congruence.
      assert (kp' = kp) as -> by congruence.
      assert (wp' = wp) as -> by congruence.
      assert (tgt' = tgt) as -> by congruence.
      assert (pu' = pu) as -> by congruence.
      assert (nu' = nu) as -> by congruence.
      auto. }
  assert (Hph : p <> h).
  { intros ->. destruct Hold as (Hk & _); [eauto|].
    rewrite Hkp in Hk. injection Hk. lia. }
  assert (Hfresh : forall k l, (k, l) ∈ block_heights s -> h ∈ l -> k = kp + 1).
  { intros k l Hin Hl. pose proof (Huniq _ _ _ Hin Hl) as Hk.
    destruct Hold as (Hk' & _); [apply Hhdom; eauto|]. congruence. }
  set (s' := set_cumulative_work _ _).
  assert (Hbh : block_heights s'
                = dict_set (block_heights s) (kp + 1)
                    (default [] (dict_get (block_heights s) (kp + 1)) ++ [h]))
    by apply heights_append_eq.
  assert (Hnew_height : find_height (block_heights s') h = Some (kp + 1))
    by (rewrite Hbh; apply find_height_append_eq, Hfresh).
  assert (Hnew_work : getCumulativeWork s' h
                      = Some (num_add wp (getWork (genesisTarget s) tgt)))
    by apply dict_get_set_eq.
  assert (Hnew_utxo : utxo_sets s' !! h = Some (Some nu))
    by apply lookup_insert_eq.
  assert (Hnew_block : blocks s' !! h = Some b) by apply lookup_insert_eq.
  assert (Hstable : forall y, is_Some (blocks s !! y) ->
            is_Some (blocks s' !! y) /\
            find_height (block_heights s') y = find_height (block_heights s) y /\
            getCumulativeWork s' y = getCumulativeWork s y /\
            utxo_sets s' !! y = utxo_sets s !! y).
  { intros y Hy. destruct (decide (y = h)) as [->|Hne].
    - destruct (Hold Hy) as (E1 & E2 & E3).
      rewrite Hnew_height, Hnew_work, Hnew_utxo, Hnew_block, E1, E2, E3.
      eauto.
    - rewrite Hbh, find_height_append_ne by assumption.
      unfold getCumulativeWork, s'. cbn.
      rewrite dict_get_set_ne, !lookup_insert_ne by congruence. auto. }
  assert (Hlinked : linked s' h b).
  { destruct (Hstable p ltac:(eauto)) as (Hp1 & Hp2 & Hp3 & Hp4).
    exists p, kp, wp, tgt, pu, nu.
    rewrite Hp2, Hp3, Hp4. unfold getCumulativeWork at 1.
    repeat split; assumption. }
  split; [|intros _; exists b, h; auto].
  split.
  - assumption.
  - cbn. by rewrite lookup_insert_ne.
  - intros y by'. cbn. destruct (decide (h = y)) as [<-|Hne].
    + rewrite lookup_insert_eq. by intros [= <-].
    + rewrite lookup_insert_ne by assumption. apply Hhash.
  - intros y. destruct (decide (y = h)) as [->|Hne].
    + rewrite Hnew_block, Hnew_work. split; eauto.
    + unfold getCumulativeWork, s'. cbn.
      rewrite dict_get_set_ne, lookup_insert_ne by congruence. apply Hwdom.
  - intros y. destruct (decide (y = h)) as [->|Hne].
    + rewrite Hnew_block, Hnew_height. split; eauto.
    + rewrite Hbh, find_height_append_ne by assumption. cbn.
      rewrite lookup_insert_ne by congruence. apply Hhdom.
  - intros y k l Hin Hy. rewrite Hbh in Hin.
    destruct (heights_append_elem _ _ _ _ _ _ Hin Hy) as [[-> ->]|(l' & Hl' & Hy')].
    + assumption.
    + destruct (Hstable y) as (_ & -> & _); [|by eapply Huniq].
      apply Hhdom. eapply find_height_is_Some; eassumption.
  - intros y by' Hy. destruct (decide (y = h)) as [->|Hne].
    + rewrite Hnew_block in Hy. injection Hy as <-. right. assumption.
    + cbn in Hy. rewrite lookup_insert_ne in Hy by congruence.
      destruct (Hlink _ _ Hy) as [?|Hl]; [left; assumption|right].
      apply (linked_stable s s');
        [reflexivity|reflexivity|exact Hstable|eauto|exact Hl].
Qed.

Lemma reachable_chain_inv (g : Block) (s : Blockchain) :
  reachable g s -> chain_inv g s.
Proof.
  induction 1 as [fuel gt mm s hg Hinit Hg Hnz|s block s' r _ IH Hadm Hext].
  - eapply chain_inv_init; eassumption.
  - eapply chain_inv_extend; eassumption.
Qed.

(** C5: in every state that calls of [extend] lead to on a chain whose
    genesis target is a 256-bit value, as long as hashes have identified
    what blocks commit to, each stored block other than the genesis block
    is linked to its parent (height one more, cumulative work the
    parent's plus its own, snapshot the result of [Block.validate] on the
    parent's snapshot), and a block that [extend] accepts is stored with
    these records. *)
Theorem extend_bookkeeping (g : Block) (s : Blockchain) :
  reachable g s -> is_uint256 (genesisTarget s) ->
  (forall h b, blocks s !! h = Some b -> b <> g -> linked s h b) /\
  (forall b s', admissible s b ->
     Blockchain_extend s (Some b) = (s', Ret true) ->
     exists h, Block_getHash b = Ret h /\ blocks s' !! h = Some b /\
               linked s' h b).
Proof.
  intros Hreach _. pose proof (reachable_chain_inv _ _ Hreach) as Hinv. split.
  - intros h b Hb Hne. destruct (inv_linked _ _ Hinv _ _ Hb); done.
  - intros b s' Hadm Hext.
    destruct (chain_inv_extend g s s' (Some b) (Ret true) Hinv) as [_ Hacc];
      [by intros ? [= <-] | assumption |].
    destruct (Hacc eq_refl) as (b' & h & [= <-] & Hh & Hb & Hl). eauto.
Qed.

Lemma reachable_chain_state (g : Block) (s : Blockchain) :
  reachable g s -> chain_state s.
Proof.
  induction 1; [eapply chain_state_init|eapply chain_state_extend]; eassumption.
Qed.


End ChainProperties.

(** * The statements at sample data *)

Lemma toy_sha256_digest : @Sha256Digest toy_hashing.
Proof.
  intros bs. change (length (toy_sha256 bs) = 32%nat). unfold toy_sha256.
  rewrite length_app, repeat_length. reflexivity.
Qed.

Lemma Qgt_bool_true (x y : Q) : negb (Qle_bool x y) = true <-> (y < x)%Q.
Proof.
  rewrite negb_true_iff. split.
  - intros Hf. apply Qnot_le_lt. intros Hle.
    apply Qle_bool_iff in Hle. congruence.
  - intros Hlt. destruct (Qle_bool x y) eqn:E; [|reflexivity].
    apply Qle_bool_iff in E. exfalso. eapply Qlt_not_le; eassumption.
Qed.

Lemma Qgt_bool_false (x y : Q) : negb (Qle_bool x y) = false <-> (x <= y)%Q.
Proof. rewrite negb_false_iff. apply Qle_bool_iff. Qed.

Lemma exact_work_laws : @WorkNumLaws exact_work.
Proof.
  split.
  - intros g t Hg Ht. unfold nonneg. cbn.
    assert (Hq : (0 <= inject_Z g / inject_Z t)%Q).
    { apply Qle_shift_div_l.
      - unfold Qlt. cbn. lia.
      - unfold Qle. cbn. lia. }
    rewrite Qgt_bool_true, Qgt_bool_false. split; [|assumption].
    eapply Qlt_le_trans; [|exact Hq]. reflexivity.
  - intros [a|] [b|]; unfold nonneg; cbn; try tauto.
    rewrite !Qgt_bool_true, !Qgt_bool_false.
    change (inject_Z (-1)) with (-1)%Q. change (inject_Z 0) with 0%Q.
    intros [_ Ha] [_ Hb]. split; lra.
  - intros [a|]; cbn; [|reflexivity].
    apply Qgt_bool_false, Qle_refl.
  - intros [a|] [b|] [c|]; cbn; try congruence.
    rewrite !Qgt_bool_true. intros. lra.
  - intros [a|] [b|] [c|]; unfold nonneg; cbn; try congruence; try tauto.
    rewrite !Qgt_bool_true, !Qgt_bool_false. intros _ ? ?. lra.
Qed.

Section SampleStatements.
#[local] Existing Instance toy_hashing.
#[local] Existing Instance exact_work.
#[local] Existing Instance toy_sha256_digest.
#[local] Existing Instance exact_work_laws.
#[local] Existing Instance GivesHash.

Lemma chain0_reachable : reachable genesis0 chain0.
Proof.
  apply (reachable_init genesis0 1 max_target 100 chain0 55).
  - reflexivity.
  - reflexivity.
  - discriminate.
Qed.

Lemma chain0_genesisTarget : is_uint256 (genesisTarget chain0).
Proof. split; [discriminate|reflexivity]. Qed.

Lemma block_mint_100_admissible : admissible chain0 block_mint_100.
Proof.
  intros h Hh. vm_compute in Hh. injection Hh as <-.
  split; [discriminate|]. intros b' Hb'. vm_compute in Hb'. discriminate.
Qed.

Lemma validate_accepts_overspending_witness :
  sum_amounts [mkOutput None 1000]
  > input_total (add_outputs tx_mint_100 ∅) [mkInput 100 0 []] /\
  exists U',
    Block_validate block_overspend ∅ 100 = Ret (Some U') /\
    forall i out, [mkOutput None 1000] !! i = Some out ->
      (getHash tx_overspend, Z.of_nat i) ∉ (∅ : gset (Z * Z)) ->
      (getHash tx_overspend, Z.of_nat i) ∉ utxo_key <$> [mkInput 100 0 []] ->
      U' !! (getHash tx_overspend, Z.of_nat i) = Some out.
Proof.
  split; [reflexivity|].
  apply (validate_accepts_overspending block_overspend ∅ 100 175 max_target
           tx_mint_100 [] tx_overspend [] [mkInput 100 0 []]
           [mkOutput None 1000] (add_outputs tx_mint_100 ∅) ∅).
  - reflexivity.
  - reflexivity.
  - reflexivity.
  - reflexivity.
  - reflexivity.
  - reflexivity.
  - reflexivity.
  - reflexivity.
  - reflexivity.
  - apply NoDup_singleton.
  - constructor; [|constructor]. split.
    + apply not_elem_of_empty.
    + exists (mkOutput None 100). split; reflexivity.
  - reflexivity.
  - reflexivity.
Defined.

Lemma validate_first_transaction_witness :
  validateMint tx_mint_101 100 = false /\
  Block_validate block_mint_101 ∅ 100 = Ret None.
Proof.
  split; [reflexivity|].
  apply (validate_first_transaction block_mint_101 ∅ 100 tx_mint_101 []
           211 max_target).
  - reflexivity.
  - reflexivity.
  - reflexivity.
  - reflexivity.
  - right. split; reflexivity.
Defined.

(** C4, as stated, fails on a block whose only transaction is a coinbase
    without outputs: the transaction fails [validateMint], yet the block,
    whose hash 113 is below its target, is accepted. *)
Lemma validate_coinbase_without_outputs_counterexample :
  objects (bc_data (block_contents block_mint_nothing)) = [tx_mint_nothing] /\
  Block_getHash block_mint_nothing = Ret 113 /\
  target block_mint_nothing = Some max_target /\
  113 < max_target /\
  inputs tx_mint_nothing = None /\
  validateMint tx_mint_nothing 100 = false /\
  Block_validate block_mint_nothing ∅ 100 = Ret (Some ∅).
Proof. repeat split; reflexivity. Qed.

Lemma extend_bookkeeping_witness :
  reachable genesis0 chain0 /\
  is_uint256 (genesisTarget chain0) /\
  exists h, Block_getHash block_mint_100 = Ret h /\
            blocks chain1 !! h = Some block_mint_100 /\
            linked chain1 h block_mint_100.
Proof.
  split; [exact chain0_reachable|].
  split; [exact chain0_genesisTarget|].
  apply (proj2 (extend_bookkeeping genesis0 chain0 chain0_reachable
                  chain0_genesisTarget)
           block_mint_100 chain1).
  - exact block_mint_100_admissible.
  - reflexivity.
Defined.

Lemma extend_false_unchanged_witness :
  (Blockchain_extend chain0 (Some block_mint_101)).2 = Ret false /\
  (Blockchain_extend chain0 (Some block_mint_101)).1 = chain0.
Proof.
  split; [reflexivity|].
  apply (extend_false_unchanged chain0 _ (Some block_mint_101)).
  reflexivity.
Defined.


Lemma calcMerkleRoot_spec_witness :
  Forall (fun x : Z => is_uint256 (getHash x)) [1; 2; 3] /\
  exists r,
    calcMerkleRoot (HashableMerkleTree_init (Some [1; 2; 3])) = Ret r /\
    spec_merkle_root (getHash <$> [1; 2; 3]) r /\
    ([1; 2; 3] = [] -> r = 0) /\
    (forall x, [1; 2; 3] = [x] -> r = getHash x).
Proof.
  assert (Hall : Forall (fun x : Z => is_uint256 (getHash x)) [1; 2; 3])
    by (repeat constructor; discriminate).
  split; [exact Hall|].
  apply (calcMerkleRoot_spec [1; 2; 3]). intros _. exact Hall.
Defined.

(** The scenario of the specification: a child minting exactly the cap
    is accepted and its snapshot holds one entry of amount 100; a child
    minting 101 is refused. *)
Example extend_mint_at_cap :
  (Blockchain_extend chain0 (Some block_mint_100)).2 = Ret true /\
  utxo_sets chain1 !! 210
  = Some (Some {[ (getHash tx_mint_100, 0) := mkOutput None 100 ]}) /\
  (Blockchain_extend chain0 (Some block_mint_101)).2 = Ret false.
Proof. repeat split; reflexivity. Qed.

(** With two children of equal cumulative work, the one submitted first
    is the tip. *)
Example getTip_tie_first_inserted :
  getTip chain_fork = Ret (Some block_mint_100) /\
  getTip chain_fork_swapped = Ret (Some block_mint_nothing).
Proof. split; reflexivity. Qed.

(** Three leaves: the third is paired with zero, not with itself. *)
Example calcMerkleRoot_three_leaves :
  calcMerkleRoot (HashableMerkleTree_init (Some [1; 2; 3]))
  = Ret (spec_pair_hash (spec_pair_hash 1 2) (spec_pair_hash 3 0)).
Proof. reflexivity. Qed.

End SampleStatements.

Section SharedHeaderStatements.
#[local] Existing Instance sample_sha256_hashing.
#[local] Existing Instance exact_work.

Lemma sha_chain0_init : Blockchain_init 1 max_target 100 = Some (Ret sha_chain0).
Proof. vm_compute. reflexivity. Qed.

Lemma sha_chain0_extend :
  Blockchain_extend sha_chain0 (Some block_nonce_11) = (sha_chain1, Ret true).
Proof. vm_compute. reflexivity. Qed.

Lemma sha_chain1_extend :
  Blockchain_extend sha_chain1 (Some block_on_shared) = (sha_chain2, Ret true).
Proof. vm_compute. reflexivity. Qed.

Lemma sha_chain2_extend :
  Blockchain_extend sha_chain2 (Some block_nonce_111) = (sha_chain3, Ret true).
Proof. vm_compute. reflexivity. Qed.

(** C5, as stated for any sequence of [extend] calls, fails under SHA-256
    without any collision of the hash function: the headers of
    [block_nonce_11] and [block_nonce_111] are the same string, so both
    blocks have the hash [shared_hash], which is below both targets.
    [extend] accepts the first, then a child of it, then the second.  The
    third call overwrites the cumulative work recorded under
    [shared_hash] with that of the smaller target, while the work recorded
    for the child stays as it was: the child is stored, its parent hash
    has a stored block, and the parent's cumulative work plus the child's
    own work exceeds the cumulative work recorded for the child. *)
Lemma extend_bookkeeping_counterexample :
  Block_getHash block_nonce_11 = Ret shared_hash /\
  Block_getHash block_nonce_111 = Ret shared_hash /\
  shared_hash < short_target < max_target /\
  Blockchain_extend sha_chain0 (Some block_nonce_11) = (sha_chain1, Ret true) /\
  Blockchain_extend sha_chain1 (Some block_on_shared) = (sha_chain2, Ret true) /\
  Blockchain_extend sha_chain2 (Some block_nonce_111) = (sha_chain3, Ret true) /\
  chain_state sha_chain3 /\
  blocks sha_chain3 !! block_on_shared_hash = Some block_on_shared /\
  prior_block_hash block_on_shared = Some shared_hash /\
  blocks sha_chain3 !! shared_hash = Some block_nonce_111 /\
  target block_on_shared = Some max_target /\
  (exists wp wc,
     getCumulativeWork sha_chain3 shared_hash = Some wp /\
     getCumulativeWork sha_chain3 block_on_shared_hash = Some wc /\
     num_gt (num_add wp (getWork (genesisTarget sha_chain3) max_target)) wc
     = true) /\
  ~ linked sha_chain3 block_on_shared_hash block_on_shared.
Proof.
  split; [vm_compute; reflexivity|].
  split; [vm_compute; reflexivity|].
  split; [split; reflexivity|].
  split; [exact sha_chain0_extend|].
  split; [exact sha_chain1_extend|].
  split; [exact sha_chain2_extend|].
  split.
  { eapply chain_state_extend; [|exact sha_chain2_extend].
    eapply chain_state_extend; [|exact sha_chain1_extend].
    eapply chain_state_extend; [|exact sha_chain0_extend].
    eapply chain_state_init, sha_chain0_init. }
  split; [vm_compute; reflexivity|].
  split; [reflexivity|].
  split; [vm_compute; reflexivity|].
  split; [reflexivity|].
  split.
  { eexists _, _. split; [vm_compute; reflexivity|].
    split; [vm_compute; reflexivity|]. vm_compute. reflexivity. }
  intros (p & kp & wp & tgt & pu & nu & Hp & _ & _ & _ & Hwp & Ht & Hw & _).
  injection Hp as <-. injection Ht as <-.
  vm_compute in Hwp. injection Hwp as <-.
  vm_compute in Hw. discriminate Hw.
Qed.

End SharedHeaderStatements.

(** * Further properties *)

(** ** Transaction *)

(** [getOutput] is a bounds-checked read: it answers exactly at the
    indices [0 <= n < len(outputs)], and a negative index never wraps
    around. *)
Theorem getOutput_in_bounds (tx : Transaction) (n : Z) (o : Output) :
  getOutput tx n = Some o <->
  exists outs, outputs tx = Some outs /\ 0 <= n /\
               outs !! Z.to_nat n = Some o.
Proof.
  unfold getOutput. destruct (outputs tx) as [[|o0 os]|].
  - split; [discriminate|]. intros (outs & [= <-] & _ & Hl). discriminate.
  - destruct (Z.leb_spec 0 n) as [Hge|Hlt]; cbn [andb].
    + destruct (Z.ltb_spec n (Z.of_nat (length (o0 :: os)))) as [Hin|Hout].
      * split.
        -- intros Hn. exists (o0 :: os). repeat split; [assumption|].
           clear -Hn. revert Hn. generalize (o0 :: os) (Z.to_nat n).
           intros l i. revert i. induction l; intros [|i]; simpl; auto.
        -- intros (outs & [= <-] & _ & Hl).
           clear -Hl. revert Hl. generalize (o0 :: os) (Z.to_nat n).
           intros l i. revert i. induction l; intros [|i]; simpl; auto.
      * split; [discriminate|]. intros (outs & [= <-] & _ & Hl).
        apply lookup_lt_Some in Hl. lia.
    + split; [discriminate|]. intros (outs & _ & ? & _). lia.
  - split; [discriminate|]. intros (outs & [=] & _).
Qed.

Lemma validate_inputs_agree (U U' : UTXO) (ins : list Input) (acc : Z) :
  (forall inp, inp ∈ ins -> U !! utxo_key inp = U' !! utxo_key inp) ->
  validate_inputs U ins acc = validate_inputs U' ins acc.
Proof.
  revert acc. induction ins as [|inp rest IH]; intros acc Hagree;
    cbn [validate_inputs]; [reflexivity|].
  rewrite <- (Hagree inp) by apply list_elem_of_here.
  destruct (U !! utxo_key inp) as [utxo|]; [|reflexivity].
  destruct (negb _); [reflexivity|].
  apply IH. intros inp' Hin. apply Hagree, list_elem_of_further, Hin.
Qed.

(** [Transaction.validate] looks at the UTXO mapping only under the keys
    its inputs reference. *)
Theorem validate_depends_on_referenced (tx : Transaction) (U U' : UTXO) :
  (forall inp, inp ∈ getInputs tx ->
     U !! utxo_key inp = U' !! utxo_key inp) ->
  Transaction_validate tx U = Transaction_validate tx U'.
Proof.
  unfold Transaction_validate, getInputs. intros Hagree.
  destruct (truthy_list (inputs tx)); cbn [negb]; [|reflexivity].
  destruct (negb (truthy_list (outputs tx))); [reflexivity|].
  rewrite (validate_inputs_agree U U') by assumption. reflexivity.
Qed.

(** A transaction that is valid stays valid when entries are added to
    the UTXO mapping. *)
Theorem validate_monotone (tx : Transaction) (U U' : UTXO) :
  U ⊆ U' -> Transaction_validate tx U = true ->
  Transaction_validate tx U' = true.
Proof.
  intros Hsub Hvalid. rewrite <- Hvalid. symmetry.
  apply validate_depends_on_referenced. intros inp Hin.
  unfold Transaction_validate, getInputs in Hvalid, Hin.
  destruct (truthy_list (inputs tx)); [|by apply not_elem_of_nil in Hin].
  cbn [negb] in Hvalid.
  destruct (negb (truthy_list (outputs tx))); [discriminate|].
  destruct (validate_inputs U (default [] (inputs tx)) 0) as [r|] eqn:Hv;
    [|discriminate].
  apply validate_inputs_Some in Hv. rewrite Forall_forall in Hv.
  destruct (Hv inp Hin) as (utxo & Hk & _). rewrite Hk. symmetry.
  eapply lookup_weaken; eassumption.
Qed.

(** Fail-closed on errors: a transaction with an input whose referenced
    entry is missing, or whose script raises on the satisfier, is
    rejected. *)
Theorem validate_rejects_missing_or_raising (tx : Transaction) (U : UTXO)
    (ins : list Input) (inp : Input) :
  inputs tx = Some ins -> inp ∈ ins ->
  U !! utxo_key inp = None
  \/ (exists utxo f e, U !! utxo_key inp = Some utxo /\
                       constraint utxo = Some f /\
                       f (satisfier inp) = Raise e) ->
  Transaction_validate tx U = false.
Proof.
  intros Hin Hmem Hbad. unfold Transaction_validate. rewrite Hin.
  destruct ins as [|i0 ins]; [by apply not_elem_of_nil in Hmem|].
  cbn [truthy_list negb default from_option id].
  destruct (negb (truthy_list (outputs tx))); [reflexivity|].
  destruct (validate_inputs U (i0 :: ins) 0) as [r|] eqn:Hv; [|reflexivity].
  exfalso. apply validate_inputs_Some in Hv. rewrite Forall_forall in Hv.
  destruct (Hv inp Hmem) as (utxo & Hk & Hok).
  destruct Hbad as [Hnone|(utxo' & f & e & Hk' & Hc & Hf)]; [congruence|].
  assert (utxo' = utxo) as -> by congruence.
  rewrite (can_be_spent_raises _ _ _ _ Hc Hf) in Hok. discriminate.
Qed.

(** A mint that [validateMint] accepts under a cap is accepted under
    every larger cap, and by [Transaction.validate] on any mapping. *)
Theorem validateMint_monotone (tx : Transaction) (m m' : Z) (U : UTXO) :
  validateMint tx m = true -> m <= m' ->
  validateMint tx m' = true /\ Transaction_validate tx U = true.
Proof.
  unfold validateMint, Transaction_validate.
  destruct (inputs tx); [discriminate|].
  destruct (outputs tx) as [[|o os]|]; try discriminate.
  intros Hle%Z.leb_le Hm. split; [|reflexivity]. apply Z.leb_le. lia.
Qed.

(** ** Byte strings and the Merkle tree *)

Lemma byte_of_Z_value (z : Z) :
  Z.of_N (Byte.to_N (byte_of_Z z)) = z mod 256.
Proof.
  unfold byte_of_Z.
  assert (Hrange : 0 <= z mod 256 < 256) by (apply Z.mod_pos_bound; lia).
  destruct (Byte.of_N (Z.to_N (z mod 256))) as [b|] eqn:Hb; cbn.
  - apply Byte.to_of_N in Hb. rewrite Hb. lia.
  - apply Byte.of_N_None_iff in Hb. lia.
Qed.

Lemma length_be_bytes (len : nat) (n : Z) : length (be_bytes len n) = len.
Proof. induction len as [|k IH]; simpl; [reflexivity|]. by rewrite IH. Qed.

Lemma int_from_bytes_be_bytes_acc (len : nat) (n acc : Z) :
  0 <= n ->
  fold_left (fun a b => a * 256 + Z.of_N (Byte.to_N b)) (be_bytes len n) acc
  = acc * 256 ^ Z.of_nat len + n mod 256 ^ Z.of_nat len.
Proof.
  intros Hn. revert acc. induction len as [|k IH]; intros acc.
  - cbn [be_bytes fold_left]. change (256 ^ Z.of_nat 0) with 1.
    rewrite Z.mod_1_r. lia.
  - cbn [be_bytes fold_left]. rewrite IH, byte_of_Z_value.
    rewrite Z.shiftr_div_pow2 by lia.
    replace (2 ^ (8 * Z.of_nat k)) with (256 ^ Z.of_nat k)
      by (change 256 with (2 ^ 8); rewrite <- Z.pow_mul_r by lia; reflexivity).
    rewrite Nat2Z.inj_succ, Z.pow_succ_r by lia.
    assert (Hpos : 0 < 256 ^ Z.of_nat k) by (apply Z.pow_pos_nonneg; lia).
    rewrite (Z.mul_comm 256 (256 ^ Z.of_nat k)).
    rewrite (Z.rem_mul_r n (256 ^ Z.of_nat k) 256) by lia. lia.
Qed.

(** Round trip: [int.from_bytes(n.to_bytes(len, 'big'), 'big') == n]
    whenever [to_bytes] does not raise, and the encoding has [len]
    bytes. *)
Theorem to_bytes_from_bytes (n : Z) (len : nat) (bs : list byte) :
  to_bytes n len = Ret bs -> int_from_bytes bs = n /\ length bs = len.
Proof.
  unfold to_bytes.
  destruct (Z.leb_spec 0 n) as [Hn|]; [|discriminate].
  destruct (Z.ltb_spec n (2 ^ (8 * Z.of_nat len))) as [Hlt|]; [|discriminate].
  cbn [andb]. intros [= <-]. split; [|apply length_be_bytes].
  unfold int_from_bytes. rewrite int_from_bytes_be_bytes_acc by assumption.
  replace (256 ^ Z.of_nat len) with (2 ^ (8 * Z.of_nat len))
    by (change 256 with (2 ^ 8); rewrite <- Z.pow_mul_r by lia; reflexivity).
  rewrite Z.mod_small by lia. lia.
Qed.

(** The 64 bytes that [calcMerkleRoot] hashes for a pair determine the
    pair: different pairs of children are never fed to SHA-256 as the
    same string. *)
Theorem merkle_pair_encoding_injective (l r l' r' : Z)
    (lb rb lb' rb' : list byte) :
  to_bytes l 32 = Ret lb -> to_bytes r 32 = Ret rb ->
  to_bytes l' 32 = Ret lb' -> to_bytes r' 32 = Ret rb' ->
  lb ++ rb = lb' ++ rb' -> l = l' /\ r = r'.
Proof.
  intros [Hl Hll]%to_bytes_from_bytes [Hr Hlr]%to_bytes_from_bytes
         [Hl' Hll']%to_bytes_from_bytes [Hr' Hlr']%to_bytes_from_bytes Heq.
  apply app_inj_1 in Heq as [-> ->]; [|congruence].
  split; congruence.
Qed.

Lemma to_bytes_32_cases (h : Z) :
  (is_uint256 h /\ to_bytes h 32 = Ret (be_bytes 32 h)) \/
  (~ is_uint256 h /\ to_bytes h 32 = Raise OverflowError).
Proof.
  unfold is_uint256, to_bytes.
  change (2 ^ (8 * Z.of_nat 32)) with (2 ^ 256).
  destruct (Z.leb_spec 0 h); destruct (Z.ltb_spec h (2 ^ 256)); cbn [andb];
    [left|right|right|right]; split; try reflexivity; lia.
Qed.

Section MerkleErrors.
Context `{Hashing}.

Lemma merkle_combine_overflow_left (cur : list Z) (i : nat) (l : Z) :
  cur !! i = Some l -> ~ is_uint256 l ->
  merkle_combine cur i = Raise OverflowError.
Proof.
  intros Hl Hbad. unfold merkle_combine, py_index. rewrite Hl.
  cbn [mbind Py_bind].
  destruct (to_bytes_32_cases l) as [[? _]|[_ Ht]]; [contradiction|].
  destruct (if (i + 1 <? length cur)%nat then _ else _) as [r|] eqn:Hr.
  - cbn [mbind Py_bind]. rewrite Ht. reflexivity.
  - exfalso. destruct (i + 1 <? length cur)%nat eqn:E; [|discriminate].
    apply Nat.ltb_lt in E. apply lookup_lt_is_Some in E as [x Hx].
    rewrite Hx in Hr. discriminate.
Qed.

Lemma merkle_combine_overflow_right (cur : list Z) (i : nat) (l r : Z) :
  cur !! i = Some l -> cur !! (i + 1)%nat = Some r -> ~ is_uint256 r ->
  merkle_combine cur i = Raise OverflowError.
Proof.
  intros Hl Hr Hbad.
  destruct (to_bytes_32_cases l) as [[_ Hlt]|[Hlbad _]];
    [|by eapply merkle_combine_overflow_left].
  unfold merkle_combine, py_index. rewrite Hl. cbn [mbind Py_bind].
  apply lookup_lt_Some in Hr as Hlt'.
  destruct (Nat.ltb_spec (i + 1) (length cur)); [|lia].
  rewrite Hr. cbn [mbind Py_bind]. rewrite Hlt. cbn [mbind Py_bind].
  destruct (to_bytes_32_cases r) as [[? _]|[_ ->]]; [contradiction|reflexivity].
Qed.

Lemma merkle_level_suffix_overflow (pre suf : list Z) (k : nat) :
  length pre = (2 * k)%nat -> ~ Forall is_uint256 suf ->
  mapM (merkle_combine (pre ++ suf))
       (map (fun j => 2 * j)%nat (seq k (Nat.div2 (S (length suf)))))
  = Raise OverflowError.
Proof.
  revert pre k. induction suf as [|x|x y l IH] using list_pair_ind;
    intros pre k Hpre Hbad.
  - exfalso. apply Hbad. constructor.
  - cbn [length Nat.div2 seq map mapM].
    rewrite (merkle_combine_overflow_left _ _ x); [reflexivity| |].
    + rewrite lookup_app_r by lia. rewrite Hpre, Nat.sub_diag. reflexivity.
    + intros Hx. apply Hbad. apply Forall_cons. split; [assumption|constructor].
  - change (Nat.div2 (S (length (x :: y :: l))))
      with (S (Nat.div2 (S (length l)))).
    cbn [seq map mapM].
    assert (Hx : (pre ++ x :: y :: l) !! (2 * k)%nat = Some x)
      by (rewrite lookup_app_r by lia; rewrite Hpre, Nat.sub_diag; reflexivity).
    assert (Hy : (pre ++ x :: y :: l) !! (2 * k + 1)%nat = Some y).
    { rewrite lookup_app_r by lia.
      replace (2 * k + 1 - length pre)%nat with 1%nat by lia. reflexivity. }
    destruct (to_bytes_32_cases x) as [[Hux Htx]|[Hbx _]];
      [|rewrite (merkle_combine_overflow_left _ _ x) by assumption; reflexivity].
    destruct (to_bytes_32_cases y) as [[Huy Hty]|[Hby _]];
      [|rewrite (merkle_combine_overflow_right _ _ x y) by assumption;
        reflexivity].
    assert (Hcomb : exists v, merkle_combine (pre ++ x :: y :: l) (2 * k) = Ret v).
    { unfold merkle_combine, py_index. rewrite Hx. cbn [mbind Py_bind].
      apply lookup_lt_Some in Hy as Hlt.
      destruct (Nat.ltb_spec (2 * k + 1) (length (pre ++ x :: y :: l))); [|lia].
      rewrite Hy. cbn [mbind Py_bind]. rewrite Htx, Hty. eauto. }
    destruct Hcomb as [v ->]. cbn [mbind Py_bind].
    replace (pre ++ x :: y :: l) with ((pre ++ [x; y]) ++ l)
      by (rewrite <- app_assoc; reflexivity).
    rewrite IH; [reflexivity| |].
    + rewrite length_app. simpl. lia.
    + intros Hl. apply Hbad. apply Forall_cons. split; [assumption|].
      apply Forall_cons. split; assumption.
Qed.

Lemma merkle_loop_overflow (level : list Z) :
  (2 <= length level)%nat -> ~ Forall is_uint256 level ->
  merkle_loop level = Raise OverflowError.
Proof.
  intros Hlen Hbad.
  assert (Hnext : merkle_next_level level = Raise OverflowError)
    by (apply (merkle_level_suffix_overflow [] level 0); [reflexivity|assumption]).
  destruct level as [|a [|b rest]]; [simpl in Hlen; lia..|].
  funelim (merkle_loop (a :: b :: rest)); congruence.
Qed.

End MerkleErrors.

Section MerkleOutcome.
Context `{Hashing} `{!Sha256Digest}.

Lemma spec_merkle_root_uint256 (level : list Z) (r : Z) :
  spec_merkle_root level r -> level <> [] -> Forall is_uint256 level ->
  is_uint256 r.
Proof.
  induction 1 as [|h|a b rest r _ IH]; intros Hne Hall.
  - done.
  - by apply Forall_cons in Hall as [? _].
  - apply IH; [discriminate|apply spec_pair_level_uint256].
Qed.

Lemma Forall_is_uint256_dec (level : list Z) :
  Forall is_uint256 level \/ ~ Forall is_uint256 level.
Proof.
  induction level as [|x l [IH|IH]].
  - left. constructor.
  - destruct (to_bytes_32_cases x) as [[Hx _]|[Hx _]].
    + left. by constructor.
    + right. intros [? _]%Forall_cons. contradiction.
  - right. intros [_ ?]%Forall_cons. contradiction.
Qed.

(** [calcMerkleRoot] raises exactly when it has two or more leaves and
    one of their hashes is not a 256-bit value; what it raises is the
    [OverflowError] of [to_bytes]. *)
Theorem calcMerkleRoot_raises {A} (t : HashableMerkleTree A) (e : exn) :
  calcMerkleRoot t = Raise e <->
  e = OverflowError /\ (2 <= length (hashableList t))%nat /\
  ~ Forall is_uint256 (hashableList t).
Proof.
  unfold calcMerkleRoot.
  destruct (hashableList t) as [|a [|b rest]] eqn:Hhs.
  - split; [discriminate|]. simpl. lia.
  - simp merkle_loop. split; [discriminate|]. simpl. lia.
  - destruct (Forall_is_uint256_dec (a :: b :: rest)) as [Hall|Hbad].
    + destruct (merkle_loop_spec (a :: b :: rest)) as (r & Hr & _);
        [discriminate|simpl; lia|assumption|].
      rewrite Hr. split; [discriminate|]. tauto.
    + rewrite merkle_loop_overflow by (simpl; lia || assumption).
      split.
      * intros [= <-]. repeat split; [simpl; lia|assumption].
      * intros (-> & _). reflexivity.
Qed.

(** A root computed from two or more leaves is a 256-bit value. *)
Theorem calcMerkleRoot_uint256 {A} (t : HashableMerkleTree A) (r : Z) :
  calcMerkleRoot t = Ret r -> (2 <= length (hashableList t))%nat ->
  is_uint256 r.
Proof.
  unfold calcMerkleRoot. intros Hr Hlen.
  destruct (hashableList t) as [|a [|b rest]]; [simpl in Hlen; lia..|].
  destruct (Forall_is_uint256_dec (a :: b :: rest)) as [Hall|Hbad].
  - destruct (merkle_loop_spec (a :: b :: rest)) as (r' & Hr' & Hspec);
      [discriminate|simpl; lia|assumption|].
    assert (r' = r) as -> by congruence.
    eapply spec_merkle_root_uint256; [eassumption|discriminate|assumption].
  - rewrite merkle_loop_overflow in Hr by (simpl; lia || assumption).
    discriminate.
Qed.

End MerkleOutcome.

(** ** Block *)

Section BlockFurther.
Context `{Hashing}.

Lemma set_nonce_set_nonce (b : Block) (n n' : Z) :
  set_nonce (set_nonce b n) n' = set_nonce b n'.
Proof. reflexivity. Qed.

Lemma mine_loop_least (fuel : nat) (tgt : Z) (b b' : Block) :
  mine_loop fuel tgt b = Some (Ret b') ->
  b' = set_nonce b (nonce b') /\
  nonce b <= nonce b' < nonce b + Z.of_nat fuel /\
  (forall n, nonce b <= n < nonce b' ->
     exists h, Block_getHash (set_nonce b n) = Ret h /\ tgt <= h).
Proof.
  revert b. induction fuel as [|fuel IH]; intros b; cbn [mine_loop].
  - discriminate.
  - destruct (Block_getHash b) as [h|] eqn:Hh; [|discriminate].
    destruct (h >=? tgt) eqn:E.
    + intros Hrec. destruct (IH _ Hrec) as (Hb' & Hrange & Hleast).
      cbn [nonce set_nonce] in Hrange. rewrite set_nonce_set_nonce in Hb'.
      split; [assumption|]. split; [lia|].
      intros n Hn. destruct (decide (n = nonce b)) as [->|Hne].
      * exists h. split; [|rewrite Z.geb_leb in E; lia].
        destruct b; exact Hh.
      * destruct (Hleast n) as (h' & Hh' & Hle);
          [cbn [nonce set_nonce]; lia|].
        rewrite set_nonce_set_nonce in Hh'. eauto.
    + intros [= <-]. split; [by destruct b|]. split; [lia|]. intros n Hn. lia.
Qed.

(** [mine] returns the block with the given target and the least nonce,
    counted from 0, whose hash is below the target; parent, contents and
    timestamp are left as they were. *)
Theorem mine_least_nonce (fuel : nat) (b b' : Block) (tgt : Z) :
  mine fuel b tgt = Some (Ret b') ->
  b' = set_nonce (setTarget b tgt) (nonce b') /\
  0 <= nonce b' /\
  (exists h, Block_getHash b' = Ret h /\ h < tgt) /\
  (forall n, 0 <= n < nonce b' ->
     exists h, Block_getHash (set_nonce (setTarget b tgt) n) = Ret h /\
               tgt <= h).
Proof.
  unfold mine. intros Hmine.
  destruct (mine_loop_least _ _ _ _ Hmine) as (Hb' & Hrange & Hleast).
  destruct (mine_loop_solves _ _ _ _ Hmine) as (Hsolved & _).
  rewrite set_nonce_set_nonce in Hb'. cbn [nonce set_nonce] in Hrange.
  repeat split; [assumption|lia|assumption|].
  intros n Hn. destruct (Hleast n) as (h & Hh & Hle);
    [cbn [nonce set_nonce]; lia|].
  rewrite set_nonce_set_nonce in Hh. eauto.
Qed.

(** A block without transactions that comes out of [mine] is valid on
    every UTXO mapping and leaves it as it is. *)
Theorem mine_then_validate_empty (fuel : nat) (b b' : Block) (tgt : Z)
    (U : UTXO) (m : Z) :
  objects (bc_data (block_contents b)) = [] ->
  mine fuel b tgt = Some (Ret b') ->
  Block_validate b' U m = Ret (Some U).
Proof.
  intros Hempty Hmine.
  destruct (mine_least_nonce _ _ _ _ Hmine) as (Hb' & _ & (h & Hh & Hlt) & _).
  unfold Block_validate. rewrite Hh. cbn [mbind Py_bind].
  rewrite Hb'. cbn [target set_nonce setTarget block_contents].
  rewrite Hempty.
  replace (h >=? tgt) with false by (symmetry; rewrite Z.geb_leb; lia).
  reflexivity.
Qed.

(** [getHash] concatenates the header fields without separators: two
    blocks with the same parent, contents and timestamp whose nonce and
    target digits concatenate to the same string have the same hash,
    whatever the hash function. *)
Theorem getHash_header_not_separated (b b' : Block) :
  prior_block_hash b' = prior_block_hash b ->
  block_contents b' = block_contents b ->
  timestamp b' = timestamp b ->
  String.append (str_int (nonce b')) (str_opt (target b'))
  = String.append (str_int (nonce b)) (str_opt (target b)) ->
  Block_getHash b' = Block_getHash b.
Proof.
  intros Hp Hc Ht Hcat. unfold Block_getHash. rewrite Hp, Hc, Ht, Hcat.
  reflexivity.
Qed.

End BlockFurther.

(** ** What an accepted block has done *)

Section BlockAccepted.
Context `{Hashing}.

Lemma spend_inputs_Some (cur : UTXO) (ins : list Input)
    (spent spent' : gset (Z * Z)) :
  spend_inputs cur ins spent = Some spent' ->
  NoDup (utxo_key <$> ins) /\
  Forall (fun inp => (utxo_key inp ∉ spent) /\ spendable cur inp) ins /\
  spent' = list_to_set (utxo_key <$> ins) ∪ spent.
Proof.
  revert spent. induction ins as [|inp rest IH]; intros spent;
    cbn [spend_inputs fmap list_fmap].
  - intros [= <-]. split; [constructor|]. split; [constructor|].
    apply set_eq. intros x. rewrite list_to_set_nil, elem_of_union.
    rewrite elem_of_empty. tauto.
  - case_bool_decide as Hfresh; [discriminate|].
    destruct (cur !! utxo_key inp) as [utxo|] eqn:Hk; [|discriminate].
    destruct (truthy (can_be_spent utxo (satisfier inp))) eqn:Hok;
      cbn [negb]; [|discriminate].
    intros Hrest. destruct (IH _ Hrest) as (Hnd & Hall & ->).
    rewrite Forall_forall in Hall. repeat split.
    + apply NoDup_cons. split; [|assumption].
      intros (inp' & Heq & Hin)%list_elem_of_fmap.
      destruct (Hall inp' Hin) as [Hnot _]. apply Hnot.
      rewrite <- Heq. apply elem_of_union_l, elem_of_singleton. reflexivity.
    + apply Forall_cons. split; [split; [assumption|exists utxo; done]|].
      apply Forall_forall. intros inp' Hin.
      destruct (Hall inp' Hin) as [Hnot Hsp]. split; [|assumption].
      intros Hs. apply Hnot, elem_of_union_r, Hs.
    + apply set_eq. intros x.
      rewrite list_to_set_cons, !elem_of_union. tauto.
Qed.

Lemma validate_loop_later (m : Z) (txs : list Transaction) :
  forall (idx : nat) (cur cur' : UTXO) (spent spent' : gset (Z * Z)),
  (0 < idx)%nat ->
  validate_loop m idx txs (cur, spent) = Some (cur', spent') ->
  Forall (fun tx => is_Some (inputs tx)) txs /\
  NoDup (spent_keys txs) /\
  (forall k, k ∈ spent_keys txs -> k ∉ spent) /\
  spent' = list_to_set (spent_keys txs) ∪ spent /\
  cur' = foldl (fun c tx => add_outputs tx c) cur txs.
Proof.
  induction txs as [|tx rest IH]; intros idx cur cur' spent spent' Hidx;
    cbn [validate_loop spent_keys flat_map foldl].
  - intros [= <- <-]. repeat split; try constructor.
    + intros k []%not_elem_of_nil.
    + apply set_eq. intros x. rewrite list_to_set_nil, elem_of_union.
      rewrite elem_of_empty. tauto.
  - unfold validate_tx at 1.
    destruct (Nat.eqb_spec idx 0) as [->|_]; [lia|].
    destruct (inputs tx) as [ins|] eqn:Hins; [|discriminate].
    destruct (spend_inputs cur ins spent) as [sp1|] eqn:Hsp; [|discriminate].
    intros Hrest.
    destruct (spend_inputs_Some _ _ _ _ Hsp) as (Hnd1 & Hall1 & ->).
    destruct (IH (S idx) _ _ _ _ ltac:(lia) Hrest)
      as (Hall & Hnd & Hdisj & -> & ->).
    fold (spent_keys rest). cbn [default from_option id].
    rewrite Forall_forall in Hall1. repeat split.
    + apply Forall_cons. split; [eauto|assumption].
    + apply NoDup_app. repeat split; [assumption| |assumption].
      intros k Hk1 Hk2. apply (Hdisj k Hk2).
      apply elem_of_union_l, elem_of_list_to_set, Hk1.
    + intros k [(inp & -> & Hin)%list_elem_of_fmap|Hk]%elem_of_app.
      * apply (Hall1 inp Hin).
      * intros Hs. apply (Hdisj k Hk), elem_of_union_r, Hs.
    + apply set_eq. intros x.
      rewrite list_to_set_app, !elem_of_union. tauto.
Qed.

(** The parts of a valid block: proof of work; when there are
    transactions, the first has no inputs and mints at most the cap, and
    every other one has inputs. *)
Theorem Block_validate_accepted_structure (b : Block) (U U' : UTXO) (m : Z) :
  Block_validate b U m = Ret (Some U') ->
  (exists h tgt, Block_getHash b = Ret h /\ target b = Some tgt /\ h < tgt) /\
  match objects (bc_data (block_contents b)) with
  | [] => U' = U
  | tx0 :: rest =>
      inputs tx0 = None /\
      sum_amounts (default [] (outputs tx0)) <= Z.max 0 m /\
      Forall (fun tx => is_Some (inputs tx)) rest
  end.
Proof.
  intros Hv. split; [eapply Block_validate_accepts, Hv|].
  unfold Block_validate in Hv.
  destruct (Block_getHash b) as [h|]; cbn [mbind Py_bind] in Hv; [|discriminate].
  destruct (target b) as [tgt|]; [|discriminate].
  destruct (h >=? tgt); [discriminate|].
  destruct (objects (bc_data (block_contents b))) as [|tx0 rest];
    [congruence|].
  cbn [validate_loop] in Hv. unfold validate_tx at 1 in Hv. cbn [Nat.eqb] in Hv.
  destruct (inputs tx0) as [ins|] eqn:Hin.
  { rewrite bool_decide_eq_true_2 in Hv by eauto. discriminate. }
  rewrite bool_decide_eq_false_2 in Hv by (intros [? [=]]). cbn [orb] in Hv.
  destruct (truthy_list (outputs tx0) && negb (validateMint tx0 m)) eqn:Hcap;
    [discriminate|].
  destruct (validate_loop m 1 rest (add_outputs tx0 U, ∅))
    as [[cur' spent']|] eqn:Hloop; [|discriminate].
  destruct (validate_loop_later _ _ 1%nat _ _ _ _ ltac:(lia) Hloop) as (Hall & _).
  repeat split; [|assumption].
  unfold validateMint in Hcap. rewrite Hin in Hcap.
  destruct (outputs tx0) as [[|o os]|];
    cbn [default from_option id truthy_list andb] in Hcap |- *.
  - change (sum_amounts []) with 0. lia.
  - apply negb_false_iff, Z.leb_le in Hcap. lia.
  - change (sum_amounts []) with 0. lia.
Qed.

(** No double spending inside a block: the keys referenced by the inputs
    of a valid block are pairwise distinct, and none of them is left in
    the resulting mapping. *)
Theorem Block_validate_no_double_spend (b : Block) (U U' : UTXO) (m : Z)
    (tx0 : Transaction) (rest : list Transaction) :
  objects (bc_data (block_contents b)) = tx0 :: rest ->
  Block_validate b U m = Ret (Some U') ->
  NoDup (spent_keys rest) /\
  forall k, k ∈ spent_keys rest -> U' !! k = None.
Proof.
  intros Htxs Hv. unfold Block_validate in Hv.
  destruct (Block_getHash b) as [h|]; cbn [mbind Py_bind] in Hv; [|discriminate].
  destruct (target b) as [tgt|]; [|discriminate].
  destruct (h >=? tgt); [discriminate|]. rewrite Htxs in Hv.
  cbn [validate_loop] in Hv.
  destruct (validate_tx m 0 tx0 (U, ∅)) as [[cur0 spent0]|] eqn:Htx0;
    [|discriminate].
  assert (spent0 = ∅) as ->.
  { unfold validate_tx in Htx0. cbn [Nat.eqb] in Htx0.
    destruct (_ || _); [discriminate|]. by injection Htx0 as _ <-. }
  destruct (validate_loop m 1 rest (cur0, ∅)) as [[cur' spent']|] eqn:Hloop;
    [|discriminate].
  destruct (validate_loop_later _ _ 1%nat _ _ _ _ ltac:(lia) Hloop)
    as (_ & Hnd & _ & -> & _).
  injection Hv as <-. split; [assumption|].
  intros k Hk. apply (proj1 (delete_spent_lookup _ _ _)).
  apply elem_of_union_l, elem_of_list_to_set, Hk.
Qed.

Lemma add_outputs_other (tx : Transaction) (cur : UTXO) (k : Z * Z) :
  k.1 <> getHash tx -> add_outputs tx cur !! k = cur !! k.
Proof.
  intros Hk. unfold add_outputs. destruct (truthy_list (outputs tx)); [|done].
  apply insert_outputs_other. left. assumption.
Qed.

Lemma foldl_add_outputs_other (txs : list Transaction) (cur : UTXO)
    (k : Z * Z) :
  (forall tx, tx ∈ txs -> k.1 <> getHash tx) ->
  foldl (fun c tx => add_outputs tx c) cur txs !! k = cur !! k.
Proof.
  revert cur. induction txs as [|tx rest IH]; intros cur Hk; cbn [foldl].
  - reflexivity.
  - rewrite IH by (intros tx' Hin; apply Hk, list_elem_of_further, Hin).
    apply add_outputs_other, Hk, list_elem_of_here.
Qed.

(** The shape of the mapping that a valid block with transactions
    returns. *)
Lemma Block_validate_result (b : Block) (U U' : UTXO) (m : Z)
    (tx0 : Transaction) (rest : list Transaction) :
  objects (bc_data (block_contents b)) = tx0 :: rest ->
  Block_validate b U m = Ret (Some U') ->
  U' = delete_spent (foldl (fun c tx => add_outputs tx c) U (tx0 :: rest))
         (list_to_set (spent_keys rest)).
Proof.
  intros Htxs Hv. unfold Block_validate in Hv.
  destruct (Block_getHash b) as [h|]; cbn [mbind Py_bind] in Hv; [|discriminate].
  destruct (target b) as [tgt|]; [|discriminate].
  destruct (h >=? tgt); [discriminate|]. rewrite Htxs in Hv.
  cbn [validate_loop] in Hv.
  destruct (validate_tx m 0 tx0 (U, ∅)) as [[cur0 spent0]|] eqn:Htx0;
    [|discriminate].
  assert (cur0 = add_outputs tx0 U /\ spent0 = ∅) as [-> ->].
  { unfold validate_tx in Htx0. cbn [Nat.eqb] in Htx0.
    destruct (_ || _); [discriminate|]. by injection Htx0 as <- <-. }
  destruct (validate_loop m 1 rest (add_outputs tx0 U, ∅))
    as [[cur' spent']|] eqn:Hloop; [|discriminate].
  destruct (validate_loop_later _ _ 1%nat _ _ _ _ ltac:(lia) Hloop)
    as (_ & _ & _ & -> & ->).
  injection Hv as <-. cbn [foldl]. f_equal.
  apply set_eq. intros x. rewrite elem_of_union, elem_of_empty. tauto.
Qed.

(** A valid block leaves alone every entry that none of its inputs
    references and whose transaction hash is not the hash of one of its
    own transactions. *)
Theorem Block_validate_frame (b : Block) (U U' : UTXO) (m : Z) (k : Z * Z) :
  Block_validate b U m = Ret (Some U') ->
  k ∉ spent_keys (tail (objects (bc_data (block_contents b)))) ->
  (forall tx, tx ∈ objects (bc_data (block_contents b)) ->
     k.1 <> getHash tx) ->
  U' !! k = U !! k.
Proof.
  intros Hv Hunspent Hforeign.
  destruct (objects (bc_data (block_contents b))) as [|tx0 rest] eqn:Htxs.
  - destruct (Block_validate_accepted_structure _ _ _ _ Hv) as [_ Hs].
    rewrite Htxs in Hs. by rewrite Hs.
  - rewrite (Block_validate_result _ _ _ _ _ _ Htxs Hv).
    rewrite (proj2 (delete_spent_lookup _ _ _)).
    + by apply foldl_add_outputs_other.
    + intros Hin%elem_of_list_to_set. contradiction.
Qed.

(** When the transactions of a valid block have pairwise distinct
    hashes, every output of every transaction is in the resulting
    mapping under [(txHash, index)], unless the block spends it. *)
Theorem Block_validate_outputs (b : Block) (U U' : UTXO) (m : Z)
    (tx0 : Transaction) (rest : list Transaction)
    (tx : Transaction) (outs : list Output) (i : nat) (out : Output) :
  objects (bc_data (block_contents b)) = tx0 :: rest ->
  Block_validate b U m = Ret (Some U') ->
  NoDup (getHash <$> tx0 :: rest) ->
  tx ∈ tx0 :: rest -> outputs tx = Some outs -> outs !! i = Some out ->
  (getHash tx, Z.of_nat i) ∉ spent_keys rest ->
  U' !! (getHash tx, Z.of_nat i) = Some out.
Proof.
  intros Htxs Hv Hnd Hin Houts Hi Hunspent.
  rewrite (Block_validate_result _ _ _ _ _ _ Htxs Hv).
  rewrite (proj2 (delete_spent_lookup _ _ _))
    by (intros Hs%elem_of_list_to_set; contradiction).
  apply list_elem_of_split in Hin as (l1 & l2 & Hsplit).
  rewrite Hsplit in Hnd |- *. rewrite foldl_app. cbn [foldl].
  rewrite fmap_app in Hnd. apply NoDup_app in Hnd as (_ & _ & Hnd2).
  cbn [fmap list_fmap] in Hnd2. apply NoDup_cons in Hnd2 as [Hfresh _].
  rewrite foldl_add_outputs_other.
  - unfold add_outputs. rewrite Houts.
    destruct outs as [|o outs]; [discriminate|].
    cbn [truthy_list default from_option id].
    apply (insert_outputs_lookup _ 0 _ _ i), Hi.
  - intros tx' Hin' Heq. apply Hfresh. cbn [fst] in Heq. rewrite Heq.
    by apply list_elem_of_fmap_2.
Qed.

Lemma foldl_add_outputs_stored (txs : list Transaction) (cur : UTXO)
    (k : Z * Z) :
  is_Some (foldl (fun c tx => add_outputs tx c) cur txs !! k) ->
  is_Some (cur !! k) \/ exists tx, tx ∈ txs /\ k.1 = getHash tx.
Proof.
  revert cur. induction txs as [|tx rest IH]; intros cur; cbn [foldl].
  - auto.
  - intros [Hk|(tx' & Hin & Heq)]%IH.
    + destruct (decide (k.1 = getHash tx)) as [Heq|Hne].
      * right. exists tx. split; [apply list_elem_of_here|assumption].
      * left. rewrite add_outputs_other in Hk; assumption.
    + right. exists tx'. split; [apply list_elem_of_further|]; assumption.
Qed.

(** No spending out of thin air: every key that an input of a valid
    block references is a key of the parent mapping or carries the hash
    of a transaction of the block itself. *)
Theorem Block_validate_inputs_exist (b : Block) (U U' : UTXO) (m : Z)
    (tx0 : Transaction) (rest : list Transaction) (k : Z * Z) :
  objects (bc_data (block_contents b)) = tx0 :: rest ->
  Block_validate b U m = Ret (Some U') ->
  k ∈ spent_keys rest ->
  is_Some (U !! k) \/ exists tx, tx ∈ tx0 :: rest /\ k.1 = getHash tx.
Proof.
  intros Htxs Hv Hk. unfold Block_validate in Hv.
  destruct (Block_getHash b) as [h|]; cbn [mbind Py_bind] in Hv; [|discriminate].
  destruct (target b) as [tgt|]; [|discriminate].
  destruct (h >=? tgt); [discriminate|]. rewrite Htxs in Hv.
  destruct (validate_loop m 0 (tx0 :: rest) (U, ∅)) as [[cur' spent']|] eqn:Hloop;
    [|discriminate].
  pose proof (validate_loop_stored _ _ _ _ _ _ _ Hloop) as Hstored.
  cbn [validate_loop] in Hloop.
  destruct (validate_tx m 0 tx0 (U, ∅)) as [[cur0 spent0]|] eqn:Htx0;
    [|discriminate].
  assert (cur0 = add_outputs tx0 U /\ spent0 = ∅) as [-> ->].
  { unfold validate_tx in Htx0. cbn [Nat.eqb] in Htx0.
    destruct (_ || _); [discriminate|]. by injection Htx0 as <- <-. }
  destruct (validate_loop_later _ _ 1%nat _ _ _ _ ltac:(lia) Hloop)
    as (_ & _ & _ & -> & ->).
  apply (foldl_add_outputs_stored (tx0 :: rest) U k).
  apply Hstored; [intros k' []%not_elem_of_empty|].
  apply elem_of_union_l, elem_of_list_to_set, Hk.
Qed.

End BlockAccepted.

(** ** The indexes of the chain *)

Section ChainFurther.
Context `{Hashing} `{WorkNum}.

(** [extend] never forgets: whatever its outcome, every block, snapshot,
    cumulative work and height-list entry recorded before the call is
    still recorded after it. *)
Theorem extend_never_forgets (s s' : Blockchain) (block : option Block)
    (r : Py bool) (h : Z) :
  Blockchain_extend s block = (s', r) ->
  (is_Some (blocks s !! h) -> is_Some (blocks s' !! h)) /\
  (is_Some (utxo_sets s !! h) -> is_Some (utxo_sets s' !! h)) /\
  (is_Some (getCumulativeWork s h) -> is_Some (getCumulativeWork s' h)) /\
  (is_Some (find_height (block_heights s) h) ->
   is_Some (find_height (block_heights s') h)).
Proof.
  intros Hext. destruct block as [b|]; [|by injection Hext as <- _].
  destruct (extend_cases _ _ _ _ Hext)
    as [[-> _]|(p & pb & pu & nu & hb & tgt & _ & _ & _ & _ & _ & _ & _ & Hs')];
    [done|].
  cbn zeta in Hs'.
  assert (Hins : forall {V} (m : gmap Z V) v,
             is_Some (m !! h) -> is_Some (<[hb := v]> m !! h)).
  { intros V m v Hm. rewrite lookup_insert_is_Some.
    destruct (decide (hb = h)); [left|right]; eauto. }
  assert (Hbh : forall k,
             is_Some (find_height (block_heights s) h) ->
             is_Some (find_height (heights_append (block_heights s) k hb) h)).
  { intros k [k0 Hk0]. apply find_height_elem in Hk0 as (l & Hl & Hh).
    rewrite heights_append_eq. destruct (decide (h = hb)) as [->|Hne].
    - eapply find_height_is_Some.
      + apply dict_get_elem, dict_get_set_eq.
      + apply elem_of_app. right. apply list_elem_of_here.
    - rewrite find_height_append_ne by assumption.
      eapply find_height_is_Some; eassumption. }
  destruct (find_height (block_heights s) p) as [kp|];
    [|destruct Hs' as [-> _]; cbn; repeat split; auto].
  destruct (dict_get (cumulative_work s) p) as [wp|];
    destruct Hs' as [-> _]; cbn; repeat split; auto.
  unfold getCumulativeWork. cbn. intros Hw.
  destruct (decide (hb = h)) as [->|Hne].
  - rewrite dict_get_set_eq. eauto.
  - rewrite dict_get_set_ne by assumption. exact Hw.
Qed.

Lemma dict_set_keys_NoDup {V} (d : list (Z * V)) (k : Z) (v : V) :
  NoDup d.*1 -> NoDup (dict_set d k v).*1.
Proof.
  induction d as [|[k0 v0] d IH]; cbn [dict_set fmap list_fmap fst].
  - intros _. apply NoDup_singleton.
  - intros [Hk0 Hnd]%NoDup_cons.
    destruct (Z.eqb_spec k0 k) as [->|Hne]; cbn [fmap list_fmap fst].
    + apply NoDup_cons. split; assumption.
    + apply NoDup_cons. split; [|apply IH, Hnd].
      intros ([k1 v1] & Hk1 & Hin)%list_elem_of_fmap. cbn in Hk1. subst k1.
      apply dict_set_elem in Hin as [Hin|[= -> _]]; [|done].
      apply Hk0. apply list_elem_of_fmap. exists (k0, v1). done.
Qed.

Lemma dict_elem_get_NoDup {V} (d : list (Z * V)) (k : Z) (v : V) :
  NoDup d.*1 -> (k, v) ∈ d -> dict_get d k = Some v.
Proof.
  induction d as [|[k0 v0] d IH]; cbn [dict_get fmap list_fmap fst].
  - intros _ []%not_elem_of_nil.
  - intros [Hk0 Hnd]%NoDup_cons [[= -> ->]|Hin]%elem_of_cons.
    + rewrite Z.eqb_refl. reflexivity.
    + destruct (Z.eqb_spec k0 k) as [->|_]; [|by apply IH].
      exfalso. apply Hk0. apply list_elem_of_fmap. exists (k, v). done.
Qed.

Lemma index_inv_init (fuel : nat) (gt mm : Z) (s : Blockchain) :
  Blockchain_init fuel gt mm = Some (Ret s) -> index_inv s.
Proof.
  intros Hinit.
  destruct (Blockchain_init_state _ _ _ _ Hinit)
    as (g & hg & _ & _ & _ & Hblocks & Hbh & Hcw & _).
  assert (Hstored : forall h, is_Some (blocks s !! h) <-> h = hg).
  { intros h. rewrite Hblocks. destruct (decide (h = hg)) as [->|Hne].
    - rewrite lookup_singleton_eq. split; eauto.
    - rewrite lookup_singleton_ne by congruence.
      split; [intros [? [=]]|contradiction]. }
  split.
  - intros h ->%Hstored. rewrite Hbh. cbn.
    rewrite bool_decide_eq_true_2 by apply list_elem_of_here. eauto.
  - intros h. rewrite Hstored. unfold getCumulativeWork. rewrite Hcw. cbn.
    destruct (Z.eqb_spec hg h) as [->|Hne]; split; eauto; try congruence.
    intros [? [=]].
  - intros k l h. rewrite Hbh.
    intros [[= -> ->]|[]%not_elem_of_nil]%elem_of_cons
           [->|[]%not_elem_of_nil]%elem_of_cons.
    by apply Hstored.
  - intros k l. rewrite Hbh.
    intros [[= -> ->]|[]%not_elem_of_nil]%elem_of_cons. lia.
  - exists hg. rewrite Hbh. reflexivity.
  - rewrite Hcw. apply NoDup_singleton.
Qed.

(** In a state with consistent indexes, a call of [extend] that gets
    past validation finds the parent's height and work. *)
Lemma extend_cases_indexed (s s' : Blockchain) (b : Block) (r : Py bool) :
  index_inv s -> Blockchain_extend s (Some b) = (s', r) ->
  (s' = s /\ r <> Ret true) \/
  exists p pu nu h tgt kp wp,
    prior_block_hash b = Some p /\ is_Some (blocks s !! p) /\
    utxo_sets s !! p = Some (Some pu) /\
    Block_validate b pu (maxMintCoinsPerTx s) = Ret (Some nu) /\
    Block_getHash b = Ret h /\ target b = Some tgt /\
    find_height (block_heights s) p = Some kp /\ 0 <= kp /\
    getCumulativeWork s p = Some wp /\
    r = Ret true /\
    s' = set_cumulative_work
           (set_block_heights (set_blocks_utxos s h b nu)
              (heights_append (block_heights s) (kp + 1) h))
           (dict_set (cumulative_work s) h
              (num_add wp (getWork (genesisTarget s) tgt))).
Proof.
  intros Hinv Hext.
  destruct (extend_cases _ _ _ _ Hext)
    as [?|(p & pb & pu & nu & h & tgt & Hp & Hpb & Hu & Hv & Hh & Ht & _ & Hs')];
    [left; assumption|right].
  destruct (index_height _ Hinv p ltac:(eauto)) as [kp Hkp].
  destruct (proj1 (index_work _ Hinv p) ltac:(eauto)) as [wp Hwp].
  cbn zeta in Hs'. unfold getCumulativeWork in Hwp. rewrite Hkp, Hwp in Hs'.
  destruct Hs' as [-> ->].
  exists p, pu, nu, h, tgt, kp, wp. repeat split; eauto.
  apply find_height_elem in Hkp as (l & Hl & _).
  eapply index_height_nonneg; eassumption.
Qed.

Lemma index_inv_extend (s s' : Blockchain) (block : option Block)
    (r : Py bool) :
  index_inv s -> Blockchain_extend s block = (s', r) -> index_inv s'.
Proof.
  intros Hinv Hext. destruct block as [b|]; [|by injection Hext as <- _].
  destruct (extend_cases_indexed _ _ _ _ Hinv Hext)
    as [[-> _]|(p & pu & nu & h & tgt & kp & wp & _ & _ & _ & _ & _ & _
                  & Hkp & Hkp0 & _ & _ & ->)]; [assumption|].
  destruct Hinv as [Hheight Hwork Hlisted Hnonneg [hg Hzero] Hnd].
  split; cbn [blocks block_heights cumulative_work set_cumulative_work
              set_block_heights set_blocks_utxos getCumulativeWork].
  - intros y Hy. rewrite heights_append_eq.
    destruct (decide (y = h)) as [->|Hne].
    + eapply find_height_is_Some.
      * apply dict_get_elem, dict_get_set_eq.
      * apply elem_of_app. right. apply list_elem_of_here.
    + rewrite find_height_append_ne by assumption.
      apply Hheight. rewrite lookup_insert_ne in Hy by congruence. exact Hy.
  - intros y. unfold getCumulativeWork. cbn.
    destruct (decide (y = h)) as [->|Hne].
    + rewrite lookup_insert_eq, dict_get_set_eq. split; eauto.
    + rewrite lookup_insert_ne, dict_get_set_ne by congruence. apply Hwork.
  - intros k l y Hin Hy. rewrite heights_append_eq in Hin.
    rewrite lookup_insert_is_Some.
    destruct (heights_append_elem _ _ _ _ _ _ Hin Hy) as [[-> _]|(l' & Hl' & Hy')].
    + left. reflexivity.
    + destruct (decide (h = y)); [left; assumption|right].
      split; [assumption|]. eapply Hlisted; eassumption.
  - intros k l Hin. rewrite heights_append_eq in Hin.
    apply dict_set_elem in Hin as [Hin|[= -> _]]; [eapply Hnonneg, Hin|lia].
  - exists hg. rewrite heights_append_eq, dict_get_set_ne by lia. exact Hzero.
  - apply dict_set_keys_NoDup, Hnd.
Qed.

Lemma chain_state_index_inv (s : Blockchain) : chain_state s -> index_inv s.
Proof.
  induction 1 as [fuel gt mm s Hinit|s block s' r _ IH Hext].
  - eapply index_inv_init, Hinit.
  - eapply index_inv_extend; eassumption.
Qed.

(** All or nothing: in every state of a chain whose genesis target is a
    256-bit value (so that no quotient of [getWork] leaves the range of a
    float), a call of [extend] that does not return [True] leaves the
    state untouched, and if it raises, it is [Block.validate] that
    raised; the lookups after the first assignment never fail. *)
Theorem extend_all_or_nothing (s s' : Blockchain) (block : option Block)
    (r : Py bool) :
  chain_state s -> is_uint256 (genesisTarget s) ->
  Blockchain_extend s block = (s', r) ->
  (r = Ret true \/ s' = s) /\
  (forall e, r = Raise e ->
     exists b p pu, block = Some b /\ prior_block_hash b = Some p /\
                    utxo_sets s !! p = Some (Some pu) /\
                    Block_validate b pu (maxMintCoinsPerTx s) = Raise e).
Proof.
  intros Hstate _ Hext. pose proof (chain_state_index_inv _ Hstate) as Hinv.
  assert (Hfalse : (s, Ret false) = (s', r) ->
            (r = Ret true \/ s' = s) /\
            (forall e, r = Raise e -> exists b p pu, block = Some b /\
               prior_block_hash b = Some p /\
               utxo_sets s !! p = Some (Some pu) /\
               Block_validate b pu (maxMintCoinsPerTx s) = Raise e))
    by (intros [= <- <-]; split; [by right|discriminate]).
  unfold Blockchain_extend in Hext.
  destruct block as [b|]; [|auto].
  destruct (prior_block_hash b) as [p|] eqn:Hp; [|auto].
  destruct (blocks s !! p) as [pb|] eqn:Hpb; [|auto].
  destruct (utxo_sets s !! p) as [[pu|]|] eqn:Hu;
    cbn [mjoin option_join] in Hext; auto.
  destruct (Block_validate b pu (maxMintCoinsPerTx s)) as [[nu|]|e'] eqn:Hv;
    [|auto|].
  - destruct (Block_validate_accepts _ _ _ _ Hv) as (h & tgt & Hh & Ht & _).
    rewrite Hh, Ht in Hext.
    cbn [block_heights cumulative_work set_blocks_utxos set_block_heights]
      in Hext.
    destruct (index_height _ Hinv p ltac:(eauto)) as [kp Hkp].
    destruct (proj1 (index_work _ Hinv p) ltac:(eauto)) as [wp Hwp].
    unfold getCumulativeWork in Hwp. rewrite Hkp, Hwp in Hext.
    injection Hext as _ <-. split; [by left|discriminate].
  - injection Hext as <- <-. split; [by right|].
    intros e [= <-]. exists b, p, pu. done.
Qed.

(** In a state of a chain whose genesis target is a 256-bit value (so
    that no call of [extend] was cut short by a quotient beyond the range
    of a float), [getCumulativeWork] answers for exactly the stored
    blocks. *)
Theorem getCumulativeWork_defined (s : Blockchain) (h : Z) :
  chain_state s -> is_uint256 (genesisTarget s) ->
  is_Some (getCumulativeWork s h) <-> is_Some (blocks s !! h).
Proof.
  intros Hstate _. symmetry. apply index_work, chain_state_index_inv, Hstate.
Qed.

Lemma mapM_lookup_blocks (m : gmap Z Block) (hs : list Z) :
  (forall h, h ∈ hs -> is_Some (m !! h)) ->
  exists bs,
    mapM (fun h => match m !! h with
                   | Some b => Ret b
                   | None => Raise KeyError
                   end) hs = Ret bs /\
    Forall2 (fun h b => m !! h = Some b) hs bs.
Proof.
  induction hs as [|h hs IH]; intros Hall; cbn [mapM].
  - exists []. split; [reflexivity|constructor].
  - destruct (Hall h ltac:(apply list_elem_of_here)) as [b Hb].
    destruct IH as (bs & Hbs & Hf2);
      [intros h' Hin; apply Hall, list_elem_of_further, Hin|].
    exists (b :: bs). rewrite Hb. cbn [mbind Py_bind]. rewrite Hbs.
    split; [reflexivity|]. constructor; assumption.
Qed.

(** [getBlocksAtHeight] never raises in a state of a chain: it returns
    the stored blocks of the hashes recorded at that height, none for a
    negative height, and exactly one at height 0. *)
Theorem getBlocksAtHeight_total (s : Blockchain) (k : Z) :
  chain_state s ->
  exists bs,
    getBlocksAtHeight s k = Ret bs /\
    Forall2 (fun h b => blocks s !! h = Some b)
            (default [] (dict_get (block_heights s) k)) bs /\
    (k < 0 -> bs = []) /\
    (k = 0 -> exists g0, bs = [g0]).
Proof.
  intros Hstate. pose proof (chain_state_index_inv _ Hstate) as Hinv.
  destruct (mapM_lookup_blocks (blocks s)
              (default [] (dict_get (block_heights s) k)))
    as (bs & Hbs & Hf2).
  { intros h Hin.
    destruct (dict_get (block_heights s) k) as [l|] eqn:Hk;
      [|by apply not_elem_of_nil in Hin].
    eapply index_listed; [exact Hinv|eapply dict_get_elem, Hk|exact Hin]. }
  exists bs. split; [exact Hbs|]. split; [exact Hf2|]. split.
  - intros Hneg.
    destruct (dict_get (block_heights s) k) as [l|] eqn:Hk.
    + apply dict_get_elem in Hk.
      pose proof (index_height_nonneg _ Hinv _ _ Hk). lia.
    + by apply Forall2_nil_inv_l in Hf2.
  - intros ->. destruct (index_height_zero _ Hinv) as [hg Hzero].
    rewrite Hzero in Hf2. cbn in Hf2.
    apply Forall2_cons_inv_l in Hf2 as (g0 & bs' & _ & ->%Forall2_nil_inv_l & ->).
    eauto.
Qed.

(** A block that [extend] accepts is listed by [getBlocksAtHeight] one
    level above its parent, which is at least level 1. *)
Theorem extend_lists_block (s s' : Blockchain) (b : Block) :
  chain_state s -> Blockchain_extend s (Some b) = (s', Ret true) ->
  exists p kp bs,
    prior_block_hash b = Some p /\
    find_height (block_heights s) p = Some kp /\ 1 <= kp + 1 /\
    getBlocksAtHeight s' (kp + 1) = Ret bs /\ b ∈ bs.
Proof.
  intros Hstate Hext. pose proof (chain_state_index_inv _ Hstate) as Hinv.
  assert (Hstate' : chain_state s') by (eapply chain_state_extend; eassumption).
  destruct (extend_cases_indexed _ _ _ _ Hinv Hext)
    as [[_ Hr]|(p & pu & nu & h & tgt & kp & wp & Hp & _ & _ & _ & _ & _
                  & Hkp & Hkp0 & _ & _ & Hs')]; [done|].
  destruct (getBlocksAtHeight_total s' (kp + 1) Hstate') as (bs & Hbs & Hf2 & _).
  exists p, kp, bs. repeat split; [assumption..|lia|assumption|].
  rewrite Hs' in Hf2.
  cbn [blocks block_heights set_cumulative_work set_block_heights
       set_blocks_utxos] in Hf2.
  rewrite heights_append_eq, dict_get_set_eq in Hf2.
  cbn [default from_option id] in Hf2.
  set (l := default [] (dict_get (block_heights s) (kp + 1))) in Hf2.
  assert (Hl : (l ++ [h]) !! length l = Some h)
    by (rewrite lookup_app_r, Nat.sub_diag by lia; reflexivity).
  destruct (Forall2_lookup_l _ _ _ _ _ Hf2 Hl) as (b' & Hb' & Hstored).
  rewrite lookup_insert_eq in Hstored. injection Hstored as <-.
  eapply list_elem_of_lookup_2, Hb'.
Qed.

Lemma Block_init_mined (fuel : nat) (gt : Z) (g : Block) :
  mine fuel (setPriorBlockHash (setTarget Block_init gt) 0) gt = Some (Ret g) ->
  prior_block_hash g = Some 0 /\ target g = Some gt /\
  objects (bc_data (block_contents g)) = [] /\ timestamp g = None.
Proof.
  intros Hmine. destruct (mine_least_nonce _ _ _ _ Hmine) as (-> & _).
  repeat split.
Qed.

(** The state [__init__] builds: the mined genesis block, without
    transactions and with parent 0, is the only stored block; it is
    recorded at height 0 with work [getWork(genesisTarget)] and an empty
    snapshot. *)
Theorem Blockchain_init_genesis (fuel : nat) (gt mm : Z) (s : Blockchain) :
  Blockchain_init fuel gt mm = Some (Ret s) ->
  exists g hg,
    mine fuel (setPriorBlockHash (setTarget Block_init gt) 0) gt
    = Some (Ret g) /\
    Block_getHash g = Ret hg /\ 0 <= hg < gt /\
    blocks s = {[hg := g]} /\
    utxo_sets s = {[hg := Some ∅]} /\
    block_heights s = [(0, [hg])] /\
    cumulative_work s = [(hg, getWork gt gt)] /\
    maxMintCoinsPerTx s = mm /\ genesisTarget s = gt /\
    getBlocksAtHeight s 0 = Ret [g].
Proof.
  unfold Blockchain_init. intros Hinit.
  destruct (mine fuel _ gt) as [[g|]|] eqn:Hmine; [|discriminate..].
  destruct (Block_init_mined _ _ _ Hmine) as (_ & _ & Hempty & _).
  destruct (mine_least_nonce _ _ _ _ Hmine) as (Hg & _ & (hg & Hh & Hlt) & _).
  rewrite Hh in Hinit. cbn [mbind Py_bind] in Hinit.
  assert (Hv : Block_validate g ∅ mm = Ret (Some ∅)).
  { unfold Block_validate. rewrite Hh. cbn [mbind Py_bind].
    rewrite Hempty, Hg. cbn [target set_nonce setTarget].
    replace (hg >=? gt) with false by (symmetry; rewrite Z.geb_leb; lia).
    reflexivity. }
  rewrite Hv in Hinit. cbn [mbind Py_bind] in Hinit. injection Hinit as <-.
  exists g, hg. pose proof (Block_getHash_nonneg _ _ Hh).
  repeat split; try done; try lia.
  unfold getBlocksAtHeight.
  cbn [block_heights blocks dict_get Z.eqb default from_option id mapM].
  rewrite lookup_singleton_eq. reflexivity.
Qed.

(** What is recorded for the block of a hash that is already stored is
    what a further submission under that hash would record. *)
Lemma stored_block_records (g : Block) (s : Blockchain) (b : Block)
    (p h tgt kp : Z) (wp : number) (pu nu : UTXO) :
  chain_inv g s -> admissible s b ->
  prior_block_hash b = Some p -> is_Some (blocks s !! p) ->
  Block_getHash b = Ret h -> target b = Some tgt ->
  find_height (block_heights s) p = Some kp ->
  getCumulativeWork s p = Some wp ->
  utxo_sets s !! p = Some (Some pu) ->
  Block_validate b pu (maxMintCoinsPerTx s) = Ret (Some nu) ->
  is_Some (blocks s !! h) ->
  find_height (block_heights s) h = Some (kp + 1) /\
  getCumulativeWork s h
  = Some (num_add wp (getWork (genesisTarget s) tgt)) /\
  utxo_sets s !! h = Some (Some nu).
Proof.
  intros Hinv Hadm Hp Hpb Hh Ht Hkp Hwp Hu Hv [b' Hb'].
  destruct (Hadm h Hh) as [_ Hsame].
  destruct (Hsame _ Hb') as (Epr & Etg & Ect).
  pose proof (inv_hash _ _ Hinv _ _ Hb') as Hh'.
  destruct (inv_linked _ _ Hinv _ _ Hb') as [->|Hl].
  - rewrite (inv_genesis_prior _ _ Hinv) in Epr. rewrite <- Epr in Hp.
    injection Hp as <-. rewrite (inv_no_zero _ _ Hinv) in Hpb.
    by destruct Hpb.
  - destruct Hl as (p' & kp' & wp' & tgt' & pu' & nu' & Hp' & _ & Hkp' & Hkh
                      & Hwp' & Ht' & Hwh & Hup' & Hv' & Huh).
    rewrite (Block_validate_same_commitment b b') in Hv'
      by (rewrite ?Hh, ?Hh'; done).
    rewrite Epr in Hp'. rewrite Etg in Ht'.
    assert (p' = p) as -> by congruence.
    assert (kp' = kp) as -> by congruence.
    assert (wp' = wp) as -> by congruence.
    assert (tgt' = tgt) as -> by congruence.
    assert (pu' = pu) as -> by congruence.
    assert (nu' = nu) as -> by congruence.
    auto.
Qed.

(** Records are final: when hashes identify what blocks commit to, a
    call of [extend] changes neither the height, nor the cumulative work,
    nor the snapshot recorded for a hash that is already stored. *)
Theorem extend_keeps_records (g : Block) (s s' : Blockchain)
    (block : option Block) (r : Py bool) (h : Z) :
  reachable g s ->
  (forall b, block = Some b -> admissible s b) ->
  Blockchain_extend s block = (s', r) ->
  is_Some (blocks s !! h) ->
  find_height (block_heights s') h = find_height (block_heights s) h /\
  getCumulativeWork s' h = getCumulativeWork s h /\
  utxo_sets s' !! h = utxo_sets s !! h.
Proof.
  intros Hreach Hadm Hext Hstored.
  pose proof (reachable_chain_inv _ _ Hreach) as Hinv.
  pose proof (chain_state_index_inv _ (reachable_chain_state _ _ Hreach)) as Hidx.
  destruct block as [b|]; [|by injection Hext as <- _].
  specialize (Hadm b eq_refl).
  destruct (extend_cases_indexed _ _ _ _ Hidx Hext)
    as [[-> _]|(p & pu & nu & hb & tgt & kp & wp & Hp & Hpb & Hu & Hv & Hh & Ht
                  & Hkp & _ & Hwp & _ & ->)]; [done|].
  cbn [blocks block_heights cumulative_work utxo_sets set_cumulative_work
       set_block_heights set_blocks_utxos].
  unfold getCumulativeWork at 1. cbn [cumulative_work set_cumulative_work].
  rewrite heights_append_eq.
  destruct (decide (h = hb)) as [->|Hne].
  - destruct (stored_block_records g s b p hb tgt kp wp pu nu)
      as (E1 & E2 & E3); try assumption.
    rewrite E1, E2, E3, dict_get_set_eq, lookup_insert_eq.
    repeat split. apply find_height_append_eq.
    intros k l Hin Hl.
    pose proof (inv_height_unique _ _ Hinv _ _ _ Hin Hl). congruence.
  - rewrite find_height_append_ne, dict_get_set_ne, lookup_insert_ne
      by congruence. done.
Qed.

Section TipMonotone.
Context `{!WorkNumLaws}.

(** The best work never goes down: after a call of [extend], the entry
    that [getTip] selects has a cumulative work that the work of the
    entry selected before the call does not exceed. *)
Theorem tip_work_never_decreases (g : Block) (s s' : Blockchain)
    (block : option Block) (r : Py bool) (ht ht' : Z) :
  reachable g s ->
  (forall b, block = Some b -> admissible s b) ->
  Blockchain_extend s block = (s', r) ->
  first_maximum (cumulative_work s) ht ->
  first_maximum (cumulative_work s') ht' ->
  exists w w',
    getCumulativeWork s ht = Some w /\ getCumulativeWork s' ht' = Some w' /\
    num_gt w w' = false.
Proof.
  intros Hreach Hadm Hext (before & w & after & Hcw & _ & _)
         (before' & w' & after' & Hcw' & Hbefore' & Hafter').
  pose proof (reachable_chain_state _ _ Hreach) as Hstate.
  assert (Hstate' : chain_state s') by (eapply chain_state_extend; eassumption).
  pose proof (chain_state_index_inv _ Hstate) as Hidx.
  pose proof (chain_state_index_inv _ Hstate') as Hidx'.
  assert (Hw : getCumulativeWork s ht = Some w).
  { apply dict_elem_get_NoDup; [apply Hidx|].
    rewrite Hcw. apply elem_of_app. right. apply list_elem_of_here. }
  assert (Hw' : getCumulativeWork s' ht' = Some w').
  { apply dict_elem_get_NoDup; [apply Hidx'|].
    rewrite Hcw'. apply elem_of_app. right. apply list_elem_of_here. }
  exists w, w'. repeat split; [assumption..|].
  assert (Hkept : (ht, w) ∈ cumulative_work s').
  { apply dict_get_elem.
    destruct (extend_keeps_records g s s' block r ht Hreach Hadm Hext)
      as (_ & Hsame & _).
    - apply (index_work _ Hidx). rewrite Hw. eauto.
    - unfold getCumulativeWork in Hsame, Hw. congruence. }
  rewrite Hcw' in Hkept.
  apply elem_of_app in Hkept as [Hin|[[= _ ->]|Hin]%elem_of_cons].
  - pose proof (Hbefore' _ Hin) as Hgt. cbn in Hgt.
    destruct (num_gt w w') eqn:E; [|reflexivity].
    pose proof (num_gt_trans _ _ _ E Hgt) as Hww.
    rewrite num_gt_irrefl in Hww. discriminate.
  - apply num_gt_irrefl.
  - apply (Hafter' _ Hin).
Qed.

End TipMonotone.

End ChainFurther.

(** ** The source's own test, under SHA-256 *)

(** The implementation of SHA-256 used below, on the test vectors of the
    standard (the empty message, "abc", and a 56-byte message that needs
    a second block). *)
Lemma sha256_known_answers :
  hex (SHA256.sha256 []) =
    "e3b0c44298fc1c149afbf4c8996fb92427ae41e4649b934ca495991b7852b855"%string /\
  hex (SHA256.sha256 (list_byte_of_string "abc")) =
    "ba7816bf8f01cfea414140de5dae2223b00361a396177a9cb410ff61f20015ad"%string /\
  hex (SHA256.sha256 (list_byte_of_string
         "abcdbcdecdefdefgefghfghighijhijkijkljklmklmnlmnomnopnopq")) =
    "248d6a61d20638b8e5c026930c3e6039a33ce45964ff2167f6ecedd419db06c1"%string.
Proof. repeat split; vm_compute; reflexivity. Qed.

(** A SHA-256 digest has 32 bytes: the assumption made of the hash
    function holds of the real one. *)
Lemma sha256_hashing_digest (dumps : Transaction -> list byte) :
  @Sha256Digest (sha256_hashing dumps).
Proof.
  intros bs. change (length (SHA256.sha256 bs) = 32%nat).
  unfold SHA256.sha256.
  destruct (SHA256.blocks_loop _ _ _) as [[[[[[[a b] c] d] e] f] g] h].
  rewrite !length_app, !length_be_bytes. reflexivity.
Qed.

(** The function [Test] of the source runs through: with SHA-256 as the
    hash function, each of its assertions holds (a block mined against
    [F * 63] hashes below one mined against [F * 64], the mint of 100 is
    refused under the cap 50 and accepted under 100, and the Merkle roots
    of one and of three leaves are the ones written in the test). *)
Theorem Test_passes (dumps : Transaction -> list byte) :
  Test dumps 30 = Some (Ret true).
Proof. vm_compute. reflexivity. Qed.

(** ** The further statements at sample data *)

Section FurtherSampleStatements.
#[local] Existing Instance toy_hashing.
#[local] Existing Instance exact_work.
#[local] Existing Instance toy_sha256_digest.
#[local] Existing Instance exact_work_laws.
#[local] Existing Instance GivesHash.

Lemma getHash_header_not_separated_witness :
  block_nonce_12_target_3 <> block_nonce_1_target_23 /\
  Block_getHash block_nonce_12_target_3
  = Block_getHash block_nonce_1_target_23.
Proof.
  split; [discriminate|].
  apply (getHash_header_not_separated block_nonce_1_target_23
           block_nonce_12_target_3); reflexivity.
Defined.

Lemma validate_depends_on_referenced_witness :
  Transaction_validate tx_spend_7 utxo_7
  = Transaction_validate tx_spend_7 (<[(8, 0) := mkOutput None 1]> utxo_7).
Proof.
  apply (validate_depends_on_referenced tx_spend_7).
  intros inp [->|[]%not_elem_of_nil]%elem_of_cons. reflexivity.
Defined.

Lemma validate_monotone_witness :
  utxo_7 ⊆ <[(8, 0) := mkOutput None 1]> utxo_7 /\
  Transaction_validate tx_spend_7 (<[(8, 0) := mkOutput None 1]> utxo_7) = true.
Proof.
  assert (Hsub : utxo_7 ⊆ <[(8, 0) := mkOutput None 1]> utxo_7)
    by (apply insert_subseteq; reflexivity).
  split; [exact Hsub|].
  apply (validate_monotone tx_spend_7 utxo_7 _ Hsub). reflexivity.
Defined.

Lemma validate_rejects_missing_or_raising_witness :
  Transaction_validate tx_spend_7 ∅ = false /\
  Transaction_validate tx_spend_7 utxo_7_raising = false.
Proof.
  split.
  - apply (validate_rejects_missing_or_raising tx_spend_7 ∅
             [mkInput 7 0 []] (mkInput 7 0 []) eq_refl).
    + apply list_elem_of_here.
    + left. reflexivity.
  - apply (validate_rejects_missing_or_raising tx_spend_7 utxo_7_raising
             [mkInput 7 0 []] (mkInput 7 0 []) eq_refl).
    + apply list_elem_of_here.
    + right. eexists _, _, IndexError. repeat split; reflexivity.
Defined.

Lemma validateMint_monotone_witness :
  validateMint tx_mint_100 100 = true /\
  validateMint tx_mint_100 250 = true /\
  Transaction_validate tx_mint_100 utxo_7 = true.
Proof.
  split; [reflexivity|].
  apply (validateMint_monotone tx_mint_100 100 250 utxo_7); [reflexivity|lia].
Defined.

Lemma to_bytes_from_bytes_witness :
  to_bytes 258 2 = Ret [x01; x02] /\
  int_from_bytes [x01; x02] = 258 /\ length [x01; x02] = 2%nat.
Proof.
  split; [reflexivity|].
  apply (to_bytes_from_bytes 258 2 [x01; x02]). reflexivity.
Defined.

Lemma merkle_pair_encoding_injective_witness :
  be_bytes 32 1 ++ be_bytes 32 2 = be_bytes 32 1 ++ be_bytes 32 2 /\
  1 = 1 /\ 2 = 2.
Proof.
  split; [reflexivity|].
  apply (merkle_pair_encoding_injective 1 2 1 2
           (be_bytes 32 1) (be_bytes 32 2) (be_bytes 32 1) (be_bytes 32 2));
    reflexivity.
Defined.

Lemma calcMerkleRoot_raises_witness :
  calcMerkleRoot (HashableMerkleTree_init (Some [5; -1]))
  = Raise OverflowError.
Proof.
  apply (calcMerkleRoot_raises (HashableMerkleTree_init (Some [5; -1]))).
  split; [reflexivity|]. split; [cbn; lia|].
  intros [_ [[Hneg _] _]%Forall_cons]%Forall_cons. apply Hneg. reflexivity.
Defined.

Lemma calcMerkleRoot_uint256_witness :
  calcMerkleRoot (HashableMerkleTree_init (Some [1; 2; 3])) = Ret 6 /\
  is_uint256 6.
Proof.
  split; [reflexivity|].
  apply (calcMerkleRoot_uint256 (HashableMerkleTree_init (Some [1; 2; 3])) 6);
    [reflexivity|cbn; lia].
Defined.

Lemma mine_least_nonce_witness :
  mine 300 Block_init 50 = Some (Ret block_mined_50) /\
  nonce block_mined_50 = 10 /\
  (exists h, Block_getHash block_mined_50 = Ret h /\ h < 50) /\
  (forall n, 0 <= n < 10 ->
     exists h, Block_getHash (set_nonce (setTarget Block_init 50) n) = Ret h /\
               50 <= h).
Proof.
  assert (Hmine : mine 300 Block_init 50 = Some (Ret block_mined_50))
    by (vm_compute; reflexivity).
  split; [exact Hmine|]. split; [reflexivity|].
  apply (mine_least_nonce 300 Block_init block_mined_50 50 Hmine).
Defined.

Lemma mine_then_validate_empty_witness :
  Block_validate block_mined_50 utxo_7 100 = Ret (Some utxo_7).
Proof.
  apply (mine_then_validate_empty 300 Block_init block_mined_50 50);
    vm_compute; reflexivity.
Defined.

Lemma block_overspend_accepted :
  Block_validate block_overspend utxo_7 100
  = Ret (Some utxo_7_after_overspend).
Proof. vm_compute. reflexivity. Qed.

Lemma Block_validate_accepted_structure_witness :
  Block_validate block_overspend utxo_7 100
  = Ret (Some utxo_7_after_overspend) /\
  inputs tx_mint_100 = None /\
  sum_amounts (default [] (outputs tx_mint_100)) <= Z.max 0 100 /\
  Forall (fun tx => is_Some (inputs tx)) [tx_overspend].
Proof.
  split; [exact block_overspend_accepted|].
  apply (proj2 (Block_validate_accepted_structure block_overspend utxo_7
                  utxo_7_after_overspend 100 block_overspend_accepted)).
Defined.

Lemma Block_validate_no_double_spend_witness :
  NoDup (spent_keys [tx_overspend]) /\
  forall k, k ∈ spent_keys [tx_overspend] ->
            utxo_7_after_overspend !! k = None.
Proof.
  apply (Block_validate_no_double_spend block_overspend utxo_7
           utxo_7_after_overspend 100 tx_mint_100 [tx_overspend] eq_refl
           block_overspend_accepted).
Defined.

Lemma Block_validate_frame_witness :
  utxo_7_after_overspend !! (7, 0) = utxo_7 !! (7, 0).
Proof.
  apply (Block_validate_frame block_overspend utxo_7 utxo_7_after_overspend
           100 (7, 0) block_overspend_accepted).
  - intros [[=]|[]%not_elem_of_nil]%elem_of_cons.
  - intros tx [->|[->|[]%not_elem_of_nil]%elem_of_cons]%elem_of_cons;
      discriminate.
Defined.

Lemma Block_validate_outputs_witness :
  utxo_7_after_overspend !! (getHash tx_overspend, 0)
  = Some (mkOutput None 1000).
Proof.
  apply (Block_validate_outputs block_overspend utxo_7 utxo_7_after_overspend
           100 tx_mint_100 [tx_overspend] tx_overspend [mkOutput None 1000] 0
           (mkOutput None 1000) eq_refl block_overspend_accepted).
  - apply NoDup_cons. split; [|apply NoDup_singleton].
    intros [[=]|[]%not_elem_of_nil]%elem_of_cons.
  - apply list_elem_of_further, list_elem_of_here.
  - reflexivity.
  - reflexivity.
  - intros [[=]|[]%not_elem_of_nil]%elem_of_cons.
Defined.

Lemma Block_validate_inputs_exist_witness :
  (100, 0) ∈ spent_keys [tx_overspend] /\
  (is_Some (utxo_7 !! (100, 0)) \/
   exists tx, tx ∈ [tx_mint_100; tx_overspend] /\ (100, 0).1 = getHash tx).
Proof.
  assert (Hk : (100, 0) ∈ spent_keys [tx_overspend]) by apply list_elem_of_here.
  split; [exact Hk|].
  apply (Block_validate_inputs_exist block_overspend utxo_7
           utxo_7_after_overspend 100 tx_mint_100 [tx_overspend] (100, 0)
           eq_refl block_overspend_accepted Hk).
Defined.

Lemma chain0_state : chain_state chain0.
Proof. apply (chain_state_init 1 max_target 100 chain0). reflexivity. Qed.

Lemma chain0_extend_mint_100 :
  Blockchain_extend chain0 (Some block_mint_100) = (chain1, Ret true).
Proof. vm_compute. reflexivity. Qed.

Lemma chain0_extend_no_target :
  Blockchain_extend chain0 (Some block_no_target) = (chain0, Raise TypeError).
Proof. vm_compute. reflexivity. Qed.

Lemma extend_never_forgets_witness :
  is_Some (blocks chain0 !! 55) /\
  is_Some (blocks chain1 !! 55) /\
  is_Some (utxo_sets chain1 !! 55) /\
  is_Some (getCumulativeWork chain1 55) /\
  is_Some (find_height (block_heights chain1) 55).
Proof.
  assert (H55 : is_Some (blocks chain0 !! 55)) by (eexists; reflexivity).
  split; [exact H55|].
  destruct (extend_never_forgets chain0 chain1 (Some block_mint_100)
              (Ret true) 55 chain0_extend_mint_100) as (Hb & Hu & Hw & Hh).
  repeat split.
  - exact (Hb H55).
  - apply Hu. eexists. reflexivity.
  - apply Hw. eexists. reflexivity.
  - apply Hh. eexists. reflexivity.
Defined.

Lemma extend_all_or_nothing_witness :
  is_uint256 (genesisTarget chain0) /\
  Blockchain_extend chain0 (Some block_no_target) = (chain0, Raise TypeError) /\
  exists b p pu,
    Some block_no_target = Some b /\ prior_block_hash b = Some p /\
    utxo_sets chain0 !! p = Some (Some pu) /\
    Block_validate b pu (maxMintCoinsPerTx chain0) = Raise TypeError.
Proof.
  split; [exact chain0_genesisTarget|].
  split; [exact chain0_extend_no_target|].
  apply (proj2 (extend_all_or_nothing chain0 chain0 (Some block_no_target)
                  (Raise TypeError) chain0_state chain0_genesisTarget
                  chain0_extend_no_target)).
  reflexivity.
Defined.

Lemma getCumulativeWork_defined_witness :
  is_uint256 (genesisTarget chain0) /\
  (is_Some (getCumulativeWork chain0 55) <-> is_Some (blocks chain0 !! 55)) /\
  (is_Some (getCumulativeWork chain0 210) <-> is_Some (blocks chain0 !! 210)).
Proof.
  split; [exact chain0_genesisTarget|].
  split;
    apply (getCumulativeWork_defined chain0 _ chain0_state chain0_genesisTarget).
Defined.

Lemma getBlocksAtHeight_total_witness :
  exists bs,
    getBlocksAtHeight chain0 0 = Ret bs /\
    Forall2 (fun h b => blocks chain0 !! h = Some b)
            (default [] (dict_get (block_heights chain0) 0)) bs /\
    (0 < 0 -> bs = []) /\
    (0 = 0 -> exists g0, bs = [g0]).
Proof. apply (getBlocksAtHeight_total chain0 0 chain0_state). Defined.

Lemma extend_lists_block_witness :
  exists p kp bs,
    prior_block_hash block_mint_100 = Some p /\
    find_height (block_heights chain0) p = Some kp /\ 1 <= kp + 1 /\
    getBlocksAtHeight chain1 (kp + 1) = Ret bs /\ block_mint_100 ∈ bs.
Proof.
  apply (extend_lists_block chain0 chain1 block_mint_100 chain0_state).
  exact chain0_extend_mint_100.
Defined.

Lemma Blockchain_init_genesis_witness :
  exists g hg,
    mine 1 (setPriorBlockHash (setTarget Block_init max_target) 0) max_target
    = Some (Ret g) /\
    Block_getHash g = Ret hg /\ 0 <= hg < max_target /\
    blocks chain0 = {[hg := g]} /\
    utxo_sets chain0 = {[hg := Some ∅]} /\
    block_heights chain0 = [(0, [hg])] /\
    cumulative_work chain0 = [(hg, getWork max_target max_target)] /\
    maxMintCoinsPerTx chain0 = 100 /\ genesisTarget chain0 = max_target /\
    getBlocksAtHeight chain0 0 = Ret [g].
Proof.
  apply (Blockchain_init_genesis 1 max_target 100 chain0). reflexivity.
Defined.

Lemma extend_keeps_records_witness :
  find_height (block_heights chain1) 55 = find_height (block_heights chain0) 55 /\
  getCumulativeWork chain1 55 = getCumulativeWork chain0 55 /\
  utxo_sets chain1 !! 55 = utxo_sets chain0 !! 55.
Proof.
  apply (extend_keeps_records genesis0 chain0 chain1 (Some block_mint_100)
           (Ret true) 55 chain0_reachable).
  - intros b [= <-]. exact block_mint_100_admissible.
  - exact chain0_extend_mint_100.
  - eexists. reflexivity.
Defined.

Lemma tip_work_never_decreases_witness :
  first_maximum (cumulative_work chain0) 55 /\
  first_maximum (cumulative_work chain1) 210 /\
  exists w w',
    getCumulativeWork chain0 55 = Some w /\
    getCumulativeWork chain1 210 = Some w' /\
    num_gt w w' = false.
Proof.
  assert (H0 : first_maximum (cumulative_work chain0) 55).
  { eexists [], _, []. split; [reflexivity|].
    split; intros e []%not_elem_of_nil. }
  assert (H1 : first_maximum (cumulative_work chain1) 210).
  { eexists [_], _, []. split; [reflexivity|]. split.
    - intros e [->|[]%not_elem_of_nil]%elem_of_cons. reflexivity.
    - intros e []%not_elem_of_nil. }
  split; [exact H0|]. split; [exact H1|].
  apply (tip_work_never_decreases genesis0 chain0 chain1
           (Some block_mint_100) (Ret true) 55 210 chain0_reachable).
  - intros b [= <-]. exact block_mint_100_admissible.
  - exact chain0_extend_mint_100.
  - exact H0.
  - exact H1.
Defined.

End FurtherSampleStatements.
